(** * clipboard-sync: the frame decoder and the echo guard of [index.js]

    A shallow embedding of the connection handler of [index.js]: the
    socket [data] handler with its [while] loop, the callbacks of the
    clipboard write it starts, and [checkAndSendClipboardData], the poll
    tick.  [handleConnection] of [startServer] is the text embedded; the
    handler of [startClient] is the same code up to the names of its
    variables, and so is the loop of the copy of the program without TLS,
    which records the last text received in the loop itself
    ([on_data_plain]).

    Node runs one callback at a time, to its end: a read event is a call of
    [on_data], a clipboard write that settles a call of [settle], a tick a
    call of [poll_begin] followed, once the clipboard command has answered,
    by [poll_compare].  The state is the record [conn] of the variables the
    closures share.

    Around the handler, [Shell] is the command line given to the shell
    for a clipboard write, and [Cli] the program from its arguments to the
    socket it opens: the argument loop, the checks on the port and on the
    TLS files, [startServer] and the choice between server and client.

    A JavaScript string is a sequence of UTF-16 code units, a [Buffer] a
    sequence of bytes; both are lists of [Z].  [length], [slice] and
    [indexOf] count code units, [Buffer.byteLength] counts the bytes of the
    UTF-8 encoding: the development keeps the two apart, as the program
    does not always. *)

From Stdlib Require Import Ascii String.
From Stdlib Require Import List ZArith Bool Lia.
Import ListNotations.
Local Open Scope Z_scope.

(** Linear arithmetic with division and remainder by constants. *)
Ltac zlia := Z.to_euclidean_division_equations; lia.

(** Decide the boolean comparisons of a goal, one at a time. *)
Ltac cmp_cases :=
  repeat match goal with
  | |- context [ (?a <=? ?b) ] => destruct (Z.leb_spec a b); try zlia
  | |- context [ (?a <? ?b) ] => destruct (Z.ltb_spec a b); try zlia
  | |- context [ (?a =? ?b) ] => destruct (Z.eqb_spec a b); try zlia
  end.

(** ** The JavaScript runtime *)

Module JS.

(** A string: UTF-16 code units. A buffer: bytes. *)
Definition jsstring := list Z.
Definition bytes := list Z.

(** A string literal of the source (ASCII). *)
Definition lit (s : string) : jsstring :=
  map (fun a => Z.of_N (N_of_ascii a)) (list_ascii_of_string s).
Arguments lit s%_string.

Definition CR : Z := 13.
Definition LF : Z := 10.

Definition is_high_surrogate (u : Z) : bool := (0xD800 <=? u) && (u <=? 0xDBFF).
Definition is_low_surrogate (u : Z) : bool := (0xDC00 <=? u) && (u <=? 0xDFFF).

Definition REPLACEMENT : Z := 0xFFFD.

(** [Buffer.from(str, 'utf8')]: a surrogate pair is one four-byte code
    point, an unpaired surrogate becomes U+FFFD. *)
Fixpoint utf8_encode (s : jsstring) : bytes :=
  match s with
  | [] => []
  | u :: t =>
    if u <? 0x80 then u :: utf8_encode t
    else if u <? 0x800 then
      (0xC0 + u / 64) :: (0x80 + u mod 64) :: utf8_encode t
    else if is_high_surrogate u then
      match t with
      | l :: t' =>
        if is_low_surrogate l then
          let cp := 0x10000 + (u - 0xD800) * 0x400 + (l - 0xDC00) in
          (0xF0 + cp / 262144) :: (0x80 + (cp / 4096) mod 64)
            :: (0x80 + (cp / 64) mod 64) :: (0x80 + cp mod 64)
            :: utf8_encode t'
        else 0xEF :: 0xBF :: 0xBD :: utf8_encode t
      | [] => [0xEF; 0xBF; 0xBD]
      end
    else if is_low_surrogate u then 0xEF :: 0xBF :: 0xBD :: utf8_encode t
    else
      (0xE0 + u / 4096) :: (0x80 + (u / 64) mod 64) :: (0x80 + u mod 64)
        :: utf8_encode t
  end.

Definition Buffer_from (s : jsstring) : bytes := utf8_encode s.

(** [Buffer.byteLength(str, 'utf8')]. *)
Definition byteLength (s : jsstring) : Z := Z.of_nat (length (utf8_encode s)).

Definition utf16_of_code_point (cp : Z) : jsstring :=
  if cp <? 0x10000 then [cp]
  else [0xD800 + (cp - 0x10000) / 0x400; 0xDC00 + (cp - 0x10000) mod 0x400].

(** The decoder for a byte met when no sequence is open; [continue] decodes
    the rest of the input from the state it is given. ([b & 0x1F] is
    [b mod 32] and so on.) *)
Definition lead_byte (b : Z) (continue : Z -> Z -> Z -> Z -> jsstring)
  : jsstring :=
  if (0 <=? b) && (b <=? 0x7F) then b :: continue 0 0 0x80 0xBF
  else if (0xC2 <=? b) && (b <=? 0xDF) then continue (b mod 32) 1 0x80 0xBF
  else if (0xE0 <=? b) && (b <=? 0xEF) then
    continue (b mod 16) 2 (if b =? 0xE0 then 0xA0 else 0x80)
             (if b =? 0xED then 0x9F else 0xBF)
  else if (0xF0 <=? b) && (b <=? 0xF4) then
    continue (b mod 8) 3 (if b =? 0xF0 then 0x90 else 0x80)
             (if b =? 0xF4 then 0x8F else 0xBF)
  else REPLACEMENT :: continue 0 0 0x80 0xBF.

(** The UTF-8 decoder of the Encoding Standard, which [buf.toString('utf8')]
    follows: [needed] continuation bytes are still expected (0: no sequence
    is open), [cp] is the code point read so far, [lower]..[upper] the range
    allowed for the next byte.  A byte outside the range ends the sequence
    with U+FFFD and is decoded again as a lead byte; input that ends inside
    a sequence gives U+FFFD. *)
Fixpoint decode_loop (cp needed lower upper : Z) (bs : bytes) {struct bs}
  : jsstring :=
  match bs with
  | [] => if needed =? 0 then [] else [REPLACEMENT]
  | b :: rest =>
    if needed =? 0 then
      lead_byte b (fun cp' n lo hi => decode_loop cp' n lo hi rest)
    else if (lower <=? b) && (b <=? upper) then
      let cp' := cp * 64 + b mod 64 in
      if needed =? 1 then
        utf16_of_code_point cp' ++ decode_loop 0 0 0x80 0xBF rest
      else decode_loop cp' (needed - 1) 0x80 0xBF rest
    else
      REPLACEMENT
        :: lead_byte b (fun cp' n lo hi => decode_loop cp' n lo hi rest)
  end.

(** [buf.toString('utf8')]. *)
Definition toString (bs : bytes) : jsstring := decode_loop 0 0 0x80 0xBF bs.

(** A string without unpaired surrogates, every unit in range: what
    decoding UTF-8 produces, and what UTF-8 can carry. *)
Fixpoint well_formed (s : jsstring) : bool :=
  match s with
  | [] => true
  | u :: t =>
    if is_high_surrogate u then
      match t with
      | l :: t' => is_low_surrogate l && well_formed t'
      | [] => false
      end
    else (0 <=? u) && (u <? 0x10000) && negb (is_low_surrogate u)
         && well_formed t
  end.

(** [str.length]. *)
Definition str_length (s : jsstring) : Z := Z.of_nat (length s).

(** An index argument of [slice]: negative counts from the end, and the
    result is clamped to the string. *)
Definition relative_index (len i : Z) : Z :=
  if i <? 0 then Z.max (len + i) 0 else Z.min i len.

(** [str.slice(start, stop)]; [stop = None] is [str.slice(start)]. *)
Definition slice (s : jsstring) (start : Z) (stop : option Z) : jsstring :=
  let len := str_length s in
  let from := relative_index len start in
  let to := match stop with Some e => relative_index len e | None => len end in
  firstn (Z.to_nat (to - from)) (skipn (Z.to_nat from) s).

Fixpoint starts_with (pat s : jsstring) : bool :=
  match pat, s with
  | [], _ => true
  | p :: pat', c :: s' => (p =? c) && starts_with pat' s'
  | _ :: _, [] => false
  end.

Fixpoint indexOf_from (pat s : jsstring) (i : Z) : Z :=
  if starts_with pat s then i
  else match s with
       | [] => -1
       | _ :: t => indexOf_from pat t (i + 1)
       end.

(** [str.indexOf(pat)]: the first position where [pat] occurs, or -1. *)
Definition indexOf (s pat : jsstring) : Z := indexOf_from pat s 0.

(** Case folding of the [i] flag (without [u]): on the ASCII letters of
    the pattern it identifies a letter only with its other case; a unit
    above 127 never folds to an ASCII one. *)
Definition canonicalize (u : Z) : Z :=
  if (97 <=? u) && (u <=? 122) then u - 32 else u.

Fixpoint starts_with_ci (pat s : jsstring) : bool :=
  match pat, s with
  | [], _ => true
  | p :: pat', c :: s' =>
    (canonicalize p =? canonicalize c) && starts_with_ci pat' s'
  | _ :: _, [] => false
  end.

(** [\d]. *)
Definition is_digit (u : Z) : bool := (48 <=? u) && (u <=? 57).

(** [\d*], greedy. *)
Fixpoint take_digits (s : jsstring) : jsstring :=
  match s with
  | c :: t => if is_digit c then c :: take_digits t else []
  | [] => []
  end.

Definition content_length_key : jsstring := lit "Content-Length: ".

(** The pattern [/Content-Length: (\d+)/i] tried at the start of [s]: the
    capture group, when it matches. *)
Definition match_here (s : jsstring) : option jsstring :=
  if starts_with_ci content_length_key s then
    match take_digits (skipn (length content_length_key) s) with
    | [] => None
    | ds => Some ds
    end
  else None.

(** [s.match(/Content-Length: (\d+)/i)]: the leftmost match; [None] is
    JavaScript's [null], [Some ds] a match whose group 1 is [ds]. *)
Fixpoint match_content_length (s : jsstring) : option jsstring :=
  match match_here s with
  | Some ds => Some ds
  | None => match s with
            | [] => None
            | _ :: t => match_content_length t
            end
  end.

(** [parseInt] on a run of decimal digits, which is all the program gives
    it.  The result is kept exact: a JavaScript number is exact up to
    2^53, beyond any length a string can have. *)
Definition parseInt (ds : jsstring) : Z :=
  fold_left (fun acc d => 10 * acc + (d - 48)) ds 0.

Fixpoint digits_fuel (fuel : nat) (n : Z) (acc : jsstring) : jsstring :=
  match fuel with
  | O => acc
  | S fuel' =>
    let acc' := (48 + n mod 10) :: acc in
    if n / 10 =? 0 then acc' else digits_fuel fuel' (n / 10) acc'
  end.

(** A non-negative integer in a template literal: its decimal digits. *)
Definition number_to_string (n : Z) : jsstring :=
  digits_fuel (S (Z.to_nat (Z.log2 n))) n [].

(** White space and line terminators, as [trim] removes them. *)
Definition is_space (u : Z) : bool :=
  ((9 <=? u) && (u <=? 13)) || (u =? 0x20) || (u =? 0xA0) || (u =? 0x1680)
  || ((0x2000 <=? u) && (u <=? 0x200A)) || (u =? 0x2028) || (u =? 0x2029)
  || (u =? 0x202F) || (u =? 0x205F) || (u =? 0x3000) || (u =? 0xFEFF).

Fixpoint trimStart (s : jsstring) : jsstring :=
  match s with
  | c :: t => if is_space c then trimStart t else s
  | [] => []
  end.

(** [str.trim()]. *)
Definition trim (s : jsstring) : jsstring :=
  rev (trimStart (rev (trimStart s))).

(** [a === b] on strings. *)
Definition str_eqb (a b : jsstring) : bool :=
  if list_eq_dec Z.eq_dec a b then true else false.

(** [str.replace(/c/g, r)] for a pattern of one unit [c] and a replacement
    [r] without [$]: every [c] becomes [r]. *)
Definition replace_unit (c : Z) (r s : jsstring) : jsstring :=
  flat_map (fun u => if u =? c then r else [u]) s.

(** The value of a digit in a radix, [None] when the unit is not one. *)
Definition digit_value (radix u : Z) : option Z :=
  let v := if (48 <=? u) && (u <=? 57) then u - 48
           else if (97 <=? u) && (u <=? 122) then u - 87
           else if (65 <=? u) && (u <=? 90) then u - 55
           else radix in
  if v <? radix then Some v else None.

Fixpoint radix_digits (radix : Z) (s : jsstring) : list Z :=
  match s with
  | [] => []
  | u :: t => match digit_value radix u with
              | Some v => v :: radix_digits radix t
              | None => []
              end
  end.

(** The sign of the number [parseInt] reads, and what follows it. *)
Definition split_sign (s : jsstring) : Z * jsstring :=
  match s with
  | 45 :: t => (-1, t)
  | 43 :: t => (1, t)
  | _ => (1, s)
  end.

(** The radix: 16 behind [0x] or [0X], 10 otherwise. *)
Definition split_radix (s : jsstring) : Z * jsstring :=
  match s with
  | 48 :: x :: t => if (x =? 120) || (x =? 88) then (16, t) else (10, s)
  | _ => (10, s)
  end.

(** [parseInt(str)] without a radix: leading white space, a sign, [0x] for
    radix 16, then the longest run of digits; [None] is [NaN].  The value
    is kept exact (a JavaScript number rounds it from 2^53 on, which no
    comparison the program makes can tell). *)
Definition parseInt_string (s : jsstring) : option Z :=
  let '(sign, s1) := split_sign (trimStart s) in
  let '(radix, s2) := split_radix s1 in
  match radix_digits radix s2 with
  | [] => None
  | ds => Some (sign * fold_left (fun acc d => radix * acc + d) ds 0)
  end.

(** The states the decoder can be in: the code point read so far, with the
    bytes still allowed, can only grow into a scalar value. *)
Definition decoder_state (cp needed lower upper : Z) : Prop :=
  needed = 0
  \/ (needed = 1 /\ lower = 0x80 /\ upper = 0xBF
      /\ 2 <= cp <= 0x43FF /\ ~ 0x360 <= cp <= 0x37F)
  \/ (needed = 2
      /\ ((lower = 0xA0 /\ upper = 0xBF /\ cp = 0)
          \/ (lower = 0x80 /\ upper = 0x9F /\ cp = 13)
          \/ (lower = 0x80 /\ upper = 0xBF /\ 1 <= cp <= 15 /\ cp <> 13)
          \/ (lower = 0x80 /\ upper = 0xBF /\ 0x10 <= cp <= 0x10F)))
  \/ (needed = 3
      /\ ((lower = 0x90 /\ upper = 0xBF /\ cp = 0)
          \/ (lower = 0x80 /\ upper = 0x8F /\ cp = 4)
          \/ (lower = 0x80 /\ upper = 0xBF /\ 1 <= cp <= 3))).

(** Units below 128: one byte each in UTF-8, wherever they stand. *)
Definition is_ascii (s : jsstring) : Prop := Forall (fun u => 0 <= u < 0x80) s.

End JS.
Import JS.

(** ** The connection handler *)

Module ClipboardSync.

(** The variables [handleConnection] closes over. *)
Record conn : Type := mkConn {
  buffer : jsstring;
  lastClientContent : jsstring;     (* last content received from the peer *)
  lastClipboardContent : jsstring;  (* last clipboard content sent *)
  skipNextCheck : bool              (* skip the check after receiving data *)
}.

Definition initial : conn := mkConn [] [] [] false.

Definition CRLFCRLF : jsstring := [CR; LF; CR; LF].
Definition LFLF : jsstring := [LF; LF].

(** The frame [checkAndSendClipboardData] builds for [data]. *)
Definition message (data : jsstring) : jsstring :=
  content_length_key ++ number_to_string (byteLength data) ++ CRLFCRLF ++ data.

Definition encode (data : jsstring) : bytes := Buffer_from (message data).

(** The same frame with the delimiter the decoder also accepts. *)
Definition message_lf (data : jsstring) : jsstring :=
  content_length_key ++ number_to_string (byteLength data) ++ LFLF ++ data.

(** How one turn of the [while] loop of the [data] handler ends. *)
Inductive extraction : Type :=
| Incomplete                                  (* [return], buffer kept *)
| Malformed                                   (* [buffer = ''; return] *)
| Message (body : jsstring) (rest : jsstring).
                             (* body goes to the clipboard, [buffer = rest] *)

(** [headerEnd] and [delimiterLength]. *)
Definition find_delimiter (buffer : jsstring) : Z * Z :=
  let headerEnd := indexOf buffer CRLFCRLF in
  if headerEnd =? -1 then (indexOf buffer LFLF, 2) else (headerEnd, 4).

(** The body of the [while] loop. *)
Definition tryExtractOne (buffer : jsstring) : extraction :=
  let '(headerEnd, delimiterLength) := find_delimiter buffer in
  if headerEnd =? -1 then Incomplete
  else
    let header := slice buffer 0 (Some headerEnd) in
    let content := slice buffer (headerEnd + delimiterLength) None in
    match match_content_length header with
    | None => Malformed
    | Some digits =>
      let contentLength := parseInt digits in
      if byteLength content <? contentLength then Incomplete
      else
        let body := slice content 0 (Some contentLength) in
        Message body (slice content contentLength None)
    end.

(** [while (buffer.length > 0) { ... }] with a bound on the number of
    turns: the bodies extracted, in order, and the buffer left; [None] when
    the bound is reached. *)
Fixpoint while_loop (fuel : nat) (buffer : jsstring)
  : option (list jsstring * jsstring) :=
  match fuel with
  | O => None
  | S fuel' =>
    if str_length buffer >? 0 then
      match tryExtractOne buffer with
      | Incomplete => Some ([], buffer)
      | Malformed => Some ([], [])
      | Message body rest =>
        match while_loop fuel' rest with
        | Some (bodies, buffer') => Some (body :: bodies, buffer')
        | None => None
        end
      end
    else Some ([], buffer)
  end.

(** The loop run to its end: one turn more than the buffer has units is
    enough ([while_loop_terminates]). *)
Definition drain (buffer : jsstring) : list jsstring * jsstring :=
  match while_loop (S (length buffer)) buffer with
  | Some r => r
  | None => ([], buffer)
  end.

(** What the [data] handler leaves when its loop ends with [bodies]
    extracted and [buffer'] kept: the loop assigns to [buffer] only. *)
Definition after_data (st : conn) (bodies : list jsstring) (buffer' : jsstring)
  : conn * list jsstring :=
  (mkConn buffer' (lastClientContent st) (lastClipboardContent st)
          (skipNextCheck st), bodies).

(** [socket.on('data', ...)]: the new state and the bodies for which a
    clipboard write is started, in order. *)
Definition on_data (st : conn) (data : bytes) : conn * list jsstring :=
  let '(bodies, buffer') := drain (buffer st ++ toString data) in
  after_data st bodies buffer'.

(** The [then] callback of a clipboard write. *)
Definition write_fulfilled (st : conn) (body : jsstring) : conn :=
  mkConn (buffer st) body (lastClipboardContent st) true.

(** The [catch] callback of a clipboard write: [console.error] only. *)
Definition write_rejected (st : conn) (body : jsstring) : conn := st.

(** The promise of a clipboard write settles: fulfilled or rejected. *)
Definition settle (st : conn) (body : jsstring) (fulfilled : bool) : conn :=
  if fulfilled then write_fulfilled st body else write_rejected st body.

(** What a poll tick gives the socket. *)
Definition Suppress : option bytes := None.
Definition Emit (value : jsstring) : option bytes := Some (encode value).

(** [checkAndSendClipboardData] up to its [await]: the flag is consumed,
    or the clipboard read is started ([true]). *)
Definition poll_begin (st : conn) : conn * bool :=
  if skipNextCheck st then
    (mkConn (buffer st) (lastClientContent st) (lastClipboardContent st) false,
     false)
  else (st, true).

(** [checkAndSendClipboardData] from [const data = stdout.trim()] on. *)
Definition poll_compare (st : conn) (data : jsstring)
  : conn * option bytes :=
  if negb (str_eqb data [])
     && negb (str_eqb data (lastClipboardContent st))
     && negb (str_eqb data (lastClientContent st))
  then
    (mkConn (buffer st) (lastClientContent st) data (skipNextCheck st),
     Emit data)
  else (st, Suppress).

(** One poll tick that no other callback interrupts, on the trimmed
    clipboard text [value]. *)
Definition onClipboardSample (st : conn) (value : jsstring)
  : conn * option bytes :=
  let '(st', reading) := poll_begin st in
  if reading then poll_compare st' value else (st', Suppress).

(** [checkAndSendClipboardData] with the outcome of the clipboard read:
    [Some stdout], or [None] when the command fails (logged). *)
Definition checkAndSendClipboardData (st : conn) (read : option jsstring)
  : conn * option bytes :=
  let '(st', reading) := poll_begin st in
  if reading then
    match read with
    | Some stdout => poll_compare st' (trim stdout)
    | None => (st', Suppress)
    end
  else (st', Suppress).

(** The spec's name for the [then] callback. *)
Definition onMessageReceived (st : conn) (value : jsstring) : conn :=
  write_fulfilled st value.

(** The copy of the program without TLS has the same loop, assigns
    [lastClientContent = body] in the loop itself, whatever becomes of the
    clipboard write, and has no [skipNextCheck]. *)
Definition on_data_plain (st : conn) (data : bytes) : conn * list jsstring :=
  let '(bodies, buffer') := drain (buffer st ++ toString data) in
  (mkConn buffer' (last bodies (lastClientContent st))
          (lastClipboardContent st) (skipNextCheck st), bodies).

Definition checkAndSendClipboardData_plain
           (st : conn) (read : option jsstring) : conn * option bytes :=
  match read with
  | Some stdout => poll_compare st (trim stdout)
  | None => (st, Suppress)
  end.

(** [n] poll ticks in a row, the clipboard reading [value] each time: the
    state they leave and what each one gave the socket. *)
Fixpoint poll_ticks (n : nat) (st : conn) (value : jsstring)
  : conn * list (option bytes) :=
  match n with
  | O => (st, [])
  | S n' =>
    let '(st1, out) := onClipboardSample st value in
    let '(st2, outs) := poll_ticks n' st1 value in
    (st2, out :: outs)
  end.

(** What the event loop runs on a connection, one callback at a time. *)
Inductive event : Type :=
| Data (data : bytes)                     (* the socket has read [data] *)
| Settled (body : jsstring) (fulfilled : bool)
                                          (* a clipboard write has settled *)
| Timer                                   (* the interval fires *)
| ReadDone (read : option jsstring).      (* the clipboard read of a tick
                                             has settled *)

(** One callback: the new state and what it writes to the socket. *)
Definition step (st : conn) (e : event) : conn * option bytes :=
  match e with
  | Data data => (fst (on_data st data), None)
  | Settled body fulfilled => (settle st body fulfilled, None)
  | Timer => (fst (poll_begin st), None)
  | ReadDone (Some stdout) => poll_compare st (trim stdout)
  | ReadDone None => (st, None)
  end.

(** A run of callbacks: the final state and the frames written, in order. *)
Fixpoint run (st : conn) (es : list event) : conn * list bytes :=
  match es with
  | [] => (st, [])
  | e :: es' =>
    let '(st1, out) := step st e in
    let '(st2, outs) := run st1 es' in
    (st2, match out with Some w => w :: outs | None => outs end)
  end.

(** The clipboard text a callback compares, if it is the end of a read. *)
Definition reads (v : jsstring) (e : event) : Prop :=
  match e with
  | ReadDone (Some stdout) => trim stdout = v
  | _ => True
  end.

(** Frames one after the other, as strings. *)
Definition stream (bodies : list jsstring) : jsstring :=
  concat (map message bodies).

(** A key that differs from [Content-Length: ] by the case of its letters
    only. *)
Definition same_key (key : jsstring) : Prop :=
  map canonicalize key = map canonicalize content_length_key.

(** The callbacks that leave the last text received equal to [v]. *)
Definition keeps_received (v : jsstring) (e : event) : Prop :=
  match e with
  | Settled body true => body = v
  | _ => True
  end.

(** Feeding chunks one read event at a time: the bodies of all events. *)
Fixpoint feed (st : conn) (chunks : list bytes) : conn * list jsstring :=
  match chunks with
  | [] => (st, [])
  | c :: cs =>
    let '(st1, bodies1) := on_data st c in
    let '(st2, bodies2) := feed st1 cs in
    (st2, bodies1 ++ bodies2)
  end.

End ClipboardSync.
Import ClipboardSync.

(** ** The clipboard command *)

Module Shell.

Definition QUOTE : Z := 34.
Definition BACKSLASH : Z := 92.

(** [clipboardReadCommand] and [clipboardWriteCommand]. *)
Definition clipboardReadCommand (isWindows : bool) : jsstring :=
  if isWindows then lit "powershell -command Get-Clipboard" else lit "pbpaste".
Definition clipboardWriteCommand (isWindows : bool) : jsstring :=
  if isWindows then lit "clip" else lit "pbcopy".

(** [body.replace(/"/g, '\\"').replace(/\n/g, '\\n')]. *)
Definition escape (body : jsstring) : jsstring :=
  replace_unit LF [BACKSLASH; 110] (replace_unit QUOTE [BACKSLASH; QUOTE] body).

(** The command line the [data] handler gives to [execPromise]. *)
Definition write_command (isWindows : bool) (body : jsstring) : jsstring :=
  lit "printf %s " ++ [QUOTE] ++ escape body ++ [QUOTE] ++ lit " | "
      ++ clipboardWriteCommand isWindows.

End Shell.
Import Shell.

(** ** The command line *)

Module Cli.

(** The variables the argument loop assigns; [port] is a number, [None]
    when it is [NaN]; [keyPath] and [certPath] start as [null]. *)
Record options : Type := mkOptions {
  port : option Z;
  host : jsstring;
  mode : jsstring;
  secure : bool;
  keyPath : option jsstring;
  certPath : option jsstring
}.

Definition defaults : options :=
  mkOptions (Some 3000) (lit "localhost") (lit "server") false None None.

Definition is_mode (a : jsstring) : bool :=
  str_eqb a (lit "server") || str_eqb a (lit "client").

(** The [for] loop over [args]: [a] is [args[i]], [rest] what follows it;
    an option that takes a value takes it only when there is one
    ([i + 1 < args.length]) and then skips it ([i++]). *)
Fixpoint parse_args (args : list jsstring) (o : options) : options :=
  match args with
  | [] => o
  | a :: rest =>
    match rest with
    | v :: rest' =>
      if str_eqb a (lit "-p") then
        parse_args rest' (mkOptions (parseInt_string v) (host o) (mode o)
                                    (secure o) (keyPath o) (certPath o))
      else if str_eqb a (lit "-h") then
        parse_args rest' (mkOptions (port o) v (mode o) (secure o)
                                    (keyPath o) (certPath o))
      else if str_eqb a (lit "-secure") then
        parse_args rest (mkOptions (port o) (host o) (mode o) true
                                   (keyPath o) (certPath o))
      else if str_eqb a (lit "-key") then
        parse_args rest' (mkOptions (port o) (host o) (mode o) (secure o)
                                    (Some v) (certPath o))
      else if str_eqb a (lit "-cert") then
        parse_args rest' (mkOptions (port o) (host o) (mode o) (secure o)
                                    (keyPath o) (Some v))
      else if is_mode a then
        parse_args rest (mkOptions (port o) (host o) a (secure o)
                                   (keyPath o) (certPath o))
      else parse_args rest o
    | [] =>
      if str_eqb a (lit "-secure") then
        mkOptions (port o) (host o) (mode o) true (keyPath o) (certPath o)
      else if is_mode a then
        mkOptions (port o) (host o) a (secure o) (keyPath o) (certPath o)
      else o
    end
  end.

(** The loop of the copy without TLS: [-p], [-h] and the mode only. *)
Fixpoint parse_args_plain (args : list jsstring) (o : options) : options :=
  match args with
  | [] => o
  | a :: rest =>
    match rest with
    | v :: rest' =>
      if str_eqb a (lit "-p") then
        parse_args_plain rest' (mkOptions (parseInt_string v) (host o) (mode o)
                                          (secure o) (keyPath o) (certPath o))
      else if str_eqb a (lit "-h") then
        parse_args_plain rest' (mkOptions (port o) v (mode o) (secure o)
                                          (keyPath o) (certPath o))
      else if is_mode a then
        parse_args_plain rest (mkOptions (port o) (host o) a (secure o)
                                         (keyPath o) (certPath o))
      else parse_args_plain rest o
    | [] =>
      if is_mode a then
        mkOptions (port o) (host o) a (secure o) (keyPath o) (certPath o)
      else o
    end
  end.

(** [if (isNaN(port) || port < 1 || port > 65535) port = 3000]. *)
Definition valid_port (p : option Z) : Z :=
  match p with
  | None => 3000
  | Some n => if (n <? 1) || (n >? 65535) then 3000 else n
  end.

(** [!path]: [null] or the empty string. *)
Definition missing (path : option jsstring) : bool :=
  match path with
  | None => true
  | Some p => str_eqb p []
  end.

(** What the program does once the arguments are read. *)
Inductive outcome : Type :=
| Exit (code : Z)                          (* [process.exit(code)] *)
| Listen (port : Z) (tls : option (bytes * bytes))
                       (* [server.listen(port)], with key and certificate *)
| Connect (host : jsstring) (port : Z) (tls : bool)
                       (* [tls.connect] or [net.createConnection] *)
| InvalidMode.                             (* the last [else] *)

(** [fs.readFileSync(path)] on a path that may be [null]: [None] when it
    throws, as it does on [null]. *)
Definition read_path (readFileSync : jsstring -> option bytes)
           (path : option jsstring) : option bytes :=
  match path with
  | None => None
  | Some p => readFileSync p
  end.

(** [startServer]: the key and the certificate are read when [secure] is
    set, and a read that throws ends the process. *)
Definition startServer (readFileSync : jsstring -> option bytes)
           (o : options) (p : Z) : outcome :=
  if secure o then
    match read_path readFileSync (keyPath o),
          read_path readFileSync (certPath o) with
    | Some key, Some cert => Listen p (Some (key, cert))
    | _, _ => Exit 1
    end
  else Listen p None.

(** The program from its arguments to the socket it opens. *)
Definition main (readFileSync : jsstring -> option bytes)
           (args : list jsstring) : outcome :=
  let o := parse_args args defaults in
  let p := valid_port (port o) in
  if secure o && str_eqb (mode o) (lit "server")
     && (missing (keyPath o) || missing (certPath o))
  then Exit 1
  else if str_eqb (mode o) (lit "server") then startServer readFileSync o p
  else if str_eqb (mode o) (lit "client") then Connect (host o) p (secure o)
  else InvalidMode.

(** The copy without TLS, from its arguments to the socket it opens. *)
Definition main_plain (args : list jsstring) : outcome :=
  let o := parse_args_plain args defaults in
  let p := valid_port (port o) in
  if str_eqb (mode o) (lit "server") then Listen p None
  else if str_eqb (mode o) (lit "client") then Connect (host o) p false
  else InvalidMode.

(** The options the copy without TLS does not know. *)
Definition tls_option (a : jsstring) : bool :=
  str_eqb a (lit "-secure") || str_eqb a (lit "-key") || str_eqb a (lit "-cert").

End Cli.
Import Cli.

(** * Properties *)

(** ** UTF-8 *)

Example utf8_e_acute : utf8_encode [0xE9] = [0xC3; 0xA9].
Proof. reflexivity. Qed.

Example utf8_euro : toString [0xE2; 0x82; 0xAC] = [0x20AC].
Proof. reflexivity. Qed.

Example utf8_emoji :
  toString (utf8_encode [0xD83D; 0xDE00]) = [0xD83D; 0xDE00]
  /\ utf8_encode [0xD83D; 0xDE00] = [0xF0; 0x9F; 0x98; 0x80].
Proof. split; reflexivity. Qed.

Example utf8_truncated : toString [0x41; 0xC3] = [0x41; REPLACEMENT].
Proof. reflexivity. Qed.

Example utf8_stray_continuation : toString [0xA9; 0x42] = [REPLACEMENT; 0x42].
Proof. reflexivity. Qed.

Lemma well_formed_ind (P : jsstring -> Prop) :
  P [] ->
  (forall u t,
      is_high_surrogate u = false -> is_low_surrogate u = false ->
      0 <= u < 0x10000 -> well_formed t = true -> P t -> P (u :: t)) ->
  (forall h l t,
      is_high_surrogate h = true -> is_low_surrogate l = true ->
      well_formed t = true -> P t -> P (h :: l :: t)) ->
  forall s, well_formed s = true -> P s.
Proof.
  intros Hnil Hone Hpair s.
  remember (length s) as n eqn:Hn.
  revert s Hn.
  induction n as [n IH] using (well_founded_induction Wf_nat.lt_wf).
  intros [|u t] Hn Hwf; [exact Hnil|].
  cbn [well_formed] in Hwf.
  destruct (is_high_surrogate u) eqn:Hh.
  - destruct t as [|l t']; [discriminate|].
    apply andb_true_iff in Hwf as [Hl Hwf].
    apply Hpair; auto.
    apply (IH (length t')); [subst n; cbn; lia | reflexivity | exact Hwf].
  - repeat (apply andb_true_iff in Hwf as [Hwf ?]).
    apply Hone; auto.
    + now apply negb_true_iff.
    + lia.
    + apply (IH (length t)); [subst n; cbn; lia | reflexivity | assumption].
Qed.


(** *** One step of the decoder *)

Lemma decode_loop_lead (cp lower upper b : Z) (rest : bytes) :
  decode_loop cp 0 lower upper (b :: rest)
  = lead_byte b (fun cp' n lo hi => decode_loop cp' n lo hi rest).
Proof. reflexivity. Qed.

Lemma decode_loop_last (cp lower upper b : Z) (rest : bytes) :
  lower <= b <= upper ->
  decode_loop cp 1 lower upper (b :: rest)
  = utf16_of_code_point (cp * 64 + b mod 64) ++ toString rest.
Proof.
  intros Hb. cbn [decode_loop].
  change (1 =? 0) with false. change (1 =? 1) with true. cbv iota.
  destruct (Z.leb_spec lower b); [|lia].
  destruct (Z.leb_spec b upper); [|lia].
  reflexivity.
Qed.

Lemma decode_loop_more (cp needed lower upper b : Z) (rest : bytes) :
  1 < needed ->
  lower <= b <= upper ->
  decode_loop cp needed lower upper (b :: rest)
  = decode_loop (cp * 64 + b mod 64) (needed - 1) 0x80 0xBF rest.
Proof.
  intros Hn Hb. cbn [decode_loop].
  destruct (Z.eqb_spec needed 0); [lia|].
  destruct (Z.eqb_spec needed 1); [lia|].
  destruct (Z.leb_spec lower b); [|lia].
  destruct (Z.leb_spec b upper); [|lia].
  reflexivity.
Qed.

Section LeadByte.
Variable k : Z -> Z -> Z -> Z -> jsstring.

Lemma lead_byte_ascii (b : Z) :
  0 <= b <= 0x7F -> lead_byte b k = b :: k 0 0 0x80 0xBF.
Proof. intros Hb. unfold lead_byte. cmp_cases. reflexivity. Qed.

Lemma lead_byte_two (b : Z) :
  0xC2 <= b <= 0xDF -> lead_byte b k = k (b mod 32) 1 0x80 0xBF.
Proof. intros Hb. unfold lead_byte. cmp_cases. reflexivity. Qed.

Lemma lead_byte_three (b : Z) :
  0xE0 <= b <= 0xEF ->
  lead_byte b k
  = k (b mod 16) 2 (if b =? 0xE0 then 0xA0 else 0x80)
      (if b =? 0xED then 0x9F else 0xBF).
Proof.
  intros Hb. unfold lead_byte.
  destruct (Z.leb_spec 0 b); [|lia].
  destruct (Z.leb_spec b 0x7F); [lia|].
  destruct (Z.leb_spec 0xC2 b); [|lia].
  destruct (Z.leb_spec b 0xDF); [lia|].
  destruct (Z.leb_spec 0xE0 b); [|lia].
  destruct (Z.leb_spec b 0xEF); [|lia].
  reflexivity.
Qed.

Lemma lead_byte_four (b : Z) :
  0xF0 <= b <= 0xF4 ->
  lead_byte b k
  = k (b mod 8) 3 (if b =? 0xF0 then 0x90 else 0x80)
      (if b =? 0xF4 then 0x8F else 0xBF).
Proof.
  intros Hb. unfold lead_byte.
  destruct (Z.leb_spec 0 b); [|lia].
  destruct (Z.leb_spec b 0x7F); [lia|].
  destruct (Z.leb_spec 0xC2 b); [|lia].
  destruct (Z.leb_spec b 0xDF); [lia|].
  destruct (Z.leb_spec 0xE0 b); [|lia].
  destruct (Z.leb_spec b 0xEF); [lia|].
  destruct (Z.leb_spec 0xF0 b); [|lia].
  destruct (Z.leb_spec b 0xF4); [|lia].
  reflexivity.
Qed.
End LeadByte.

(** *** Decoding the encoding of one code point *)

Lemma decode_one_byte (b : Z) (rest : bytes) :
  0 <= b < 0x80 ->
  toString (b :: rest) = b :: toString rest.
Proof.
  intros Hb. unfold toString.
  rewrite decode_loop_lead, lead_byte_ascii by lia. reflexivity.
Qed.

Lemma decode_two_bytes (u : Z) (rest : bytes) :
  0x80 <= u < 0x800 ->
  toString ((0xC0 + u / 64) :: (0x80 + u mod 64) :: rest) = u :: toString rest.
Proof.
  intros Hu. unfold toString at 1.
  rewrite decode_loop_lead, lead_byte_two by zlia.
  rewrite decode_loop_last by zlia.
  unfold utf16_of_code_point.
  destruct (Z.ltb_spec ((0xC0 + u / 64) mod 32 * 64 + (0x80 + u mod 64) mod 64)
                       0x10000); [|zlia].
  cbn [app]. f_equal. zlia.
Qed.

Lemma decode_three_bytes (u : Z) (rest : bytes) :
  0x800 <= u < 0x10000 ->
  is_high_surrogate u = false -> is_low_surrogate u = false ->
  toString ((0xE0 + u / 4096) :: (0x80 + (u / 64) mod 64)
              :: (0x80 + u mod 64) :: rest)
  = u :: toString rest.
Proof.
  intros Hu Hh Hl. unfold toString at 1.
  assert (Hs : u < 0xD800 \/ 0xDFFF < u).
  { unfold is_high_surrogate, is_low_surrogate in Hh, Hl.
    apply andb_false_iff in Hh, Hl. rewrite !Z.leb_gt in Hh, Hl. lia. }
  rewrite decode_loop_lead, lead_byte_three by zlia.
  rewrite decode_loop_more; [| lia |].
  2:{ destruct (Z.eqb_spec (0xE0 + u / 4096) 0xE0);
      destruct (Z.eqb_spec (0xE0 + u / 4096) 0xED); zlia. }
  change (2 - 1) with 1.
  rewrite decode_loop_last by zlia.
  unfold utf16_of_code_point.
  match goal with |- context [ ?c <? 0x10000 ] =>
    replace c with u by zlia end.
  destruct (Z.ltb_spec u 0x10000); [|lia].
  reflexivity.
Qed.

Lemma decode_four_bytes (h l : Z) (rest : bytes) :
  is_high_surrogate h = true -> is_low_surrogate l = true ->
  let cp := 0x10000 + (h - 0xD800) * 0x400 + (l - 0xDC00) in
  toString ((0xF0 + cp / 262144) :: (0x80 + (cp / 4096) mod 64)
              :: (0x80 + (cp / 64) mod 64) :: (0x80 + cp mod 64) :: rest)
  = h :: l :: toString rest.
Proof.
  intros Hh Hl cp.
  unfold is_high_surrogate in Hh. unfold is_low_surrogate in Hl.
  apply andb_true_iff in Hh as [Hh1 Hh2], Hl as [Hl1 Hl2].
  rewrite Z.leb_le in Hh1, Hh2, Hl1, Hl2.
  assert (Hcp : 0x10000 <= cp <= 0x10FFFF) by (subst cp; lia).
  assert (Hhl : h = 0xD800 + (cp - 0x10000) / 0x400
                /\ l = 0xDC00 + (cp - 0x10000) mod 0x400) by (subst cp; zlia).
  clearbody cp. destruct Hhl as [-> ->]. clear Hh1 Hh2 Hl1 Hl2.
  unfold toString at 1.
  rewrite decode_loop_lead, lead_byte_four by zlia.
  rewrite decode_loop_more; [| lia |].
  2:{ destruct (Z.eqb_spec (0xF0 + cp / 262144) 0xF0);
      destruct (Z.eqb_spec (0xF0 + cp / 262144) 0xF4); zlia. }
  change (3 - 1) with 2.
  rewrite decode_loop_more by zlia.
  change (2 - 1) with 1.
  rewrite decode_loop_last by zlia.
  unfold utf16_of_code_point.
  match goal with |- context [ ?c <? 0x10000 ] =>
    replace c with cp by zlia end.
  destruct (Z.ltb_spec cp 0x10000); [lia|].
  reflexivity.
Qed.

Lemma high_surrogate_range (u : Z) :
  is_high_surrogate u = true -> 0xD800 <= u <= 0xDBFF.
Proof.
  unfold is_high_surrogate. intros H.
  apply andb_true_iff in H as [H1 H2]. rewrite Z.leb_le in H1, H2. lia.
Qed.

Lemma low_surrogate_range (u : Z) :
  is_low_surrogate u = true -> 0xDC00 <= u <= 0xDFFF.
Proof.
  unfold is_low_surrogate. intros H.
  apply andb_true_iff in H as [H1 H2]. rewrite Z.leb_le in H1, H2. lia.
Qed.

Lemma utf8_encode_pair (h l : Z) (t : jsstring) :
  is_high_surrogate h = true -> is_low_surrogate l = true ->
  utf8_encode (h :: l :: t)
  = let cp := 0x10000 + (h - 0xD800) * 0x400 + (l - 0xDC00) in
    (0xF0 + cp / 262144) :: (0x80 + (cp / 4096) mod 64)
      :: (0x80 + (cp / 64) mod 64) :: (0x80 + cp mod 64) :: utf8_encode t.
Proof.
  intros Hh Hl. pose proof (high_surrogate_range h Hh).
  change (utf8_encode (h :: l :: t)) with
    (if h <? 0x80 then h :: utf8_encode (l :: t)
     else if h <? 0x800 then
       (0xC0 + h / 64) :: (0x80 + h mod 64) :: utf8_encode (l :: t)
     else if is_high_surrogate h then
       if is_low_surrogate l then
         let cp := 0x10000 + (h - 0xD800) * 0x400 + (l - 0xDC00) in
         (0xF0 + cp / 262144) :: (0x80 + (cp / 4096) mod 64)
           :: (0x80 + (cp / 64) mod 64) :: (0x80 + cp mod 64)
           :: utf8_encode t
       else 0xEF :: 0xBF :: 0xBD :: utf8_encode (l :: t)
     else if is_low_surrogate h then
       0xEF :: 0xBF :: 0xBD :: utf8_encode (l :: t)
     else
       (0xE0 + h / 4096) :: (0x80 + (h / 64) mod 64) :: (0x80 + h mod 64)
         :: utf8_encode (l :: t)).
  rewrite Hh, Hl.
  destruct (Z.ltb_spec h 0x80); [lia|].
  destruct (Z.ltb_spec h 0x800); [lia|]. reflexivity.
Qed.

(** *** Round trip *)

(** Decoding the UTF-8 encoding of a well-formed string, followed by any
    bytes, gives the string back, followed by the decoding of those
    bytes. *)
Lemma toString_utf8_encode_app (s : jsstring) (rest : bytes) :
  well_formed s = true ->
  toString (utf8_encode s ++ rest) = s ++ toString rest.
Proof.
  intros Hwf0. revert rest. pattern s.
  apply well_formed_ind; [reflexivity | | | exact Hwf0]; clear s Hwf0.
  all: [> intros u t Hh Hl Hu Hwf IH rest | intros h l t Hh Hl Hwf IH rest].
  - cbn [utf8_encode]. rewrite Hh, Hl.
    destruct (Z.ltb_spec u 0x80).
    + cbn [app]. rewrite decode_one_byte by lia. now rewrite IH.
    + destruct (Z.ltb_spec u 0x800).
      * cbn [app]. rewrite decode_two_bytes by lia. now rewrite IH.
      * cbn [app]. rewrite decode_three_bytes by (auto; lia). now rewrite IH.
  - rewrite utf8_encode_pair by assumption.
    cbn [app]. rewrite decode_four_bytes by assumption. now rewrite IH.
Qed.

Lemma toString_utf8_encode (s : jsstring) :
  well_formed s = true -> toString (utf8_encode s) = s.
Proof.
  intros Hwf.
  rewrite <- (app_nil_r (utf8_encode s)), toString_utf8_encode_app by assumption.
  apply app_nil_r.
Qed.

(** *** What decoding produces *)

Lemma well_formed_scalar (u : Z) (t : jsstring) :
  0 <= u < 0xD800 \/ 0xDFFF < u < 0x10000 ->
  well_formed (u :: t) = well_formed t.
Proof.
  intros Hu. cbn [well_formed]. unfold is_high_surrogate, is_low_surrogate.
  cmp_cases; reflexivity.
Qed.

Lemma well_formed_code_point (cp : Z) (t : jsstring) :
  0 <= cp <= 0x10FFFF -> ~ 0xD800 <= cp <= 0xDFFF ->
  well_formed (utf16_of_code_point cp ++ t) = well_formed t.
Proof.
  intros Hcp Hs. unfold utf16_of_code_point.
  destruct (Z.ltb_spec cp 0x10000).
  - cbn [app]. apply well_formed_scalar. lia.
  - cbn [app well_formed]. unfold is_high_surrogate, is_low_surrogate.
    cmp_cases; reflexivity.
Qed.

Lemma lead_byte_well_formed (b : Z) (k : Z -> Z -> Z -> Z -> jsstring) :
  (forall cp n lo hi, decoder_state cp n lo hi ->
                      well_formed (k cp n lo hi) = true) ->
  well_formed (lead_byte b k) = true.
Proof.
  intros Hk. unfold lead_byte, REPLACEMENT.
  destruct (Z.leb_spec 0 b); cbn [andb].
  - destruct (Z.leb_spec b 0x7F); cbn [andb].
    + rewrite well_formed_scalar by lia. apply Hk. now left.
    + destruct (Z.leb_spec 0xC2 b); cbn [andb].
      * destruct (Z.leb_spec b 0xDF); cbn [andb].
        -- apply Hk. right. left. zlia.
        -- destruct (Z.leb_spec 0xE0 b); [|lia]. cbn [andb].
           destruct (Z.leb_spec b 0xEF); cbn [andb].
           ++ apply Hk. right. right. left.
              destruct (Z.eqb_spec b 0xE0); destruct (Z.eqb_spec b 0xED); zlia.
           ++ destruct (Z.leb_spec 0xF0 b); [|lia]. cbn [andb].
              destruct (Z.leb_spec b 0xF4); cbn [andb].
              ** apply Hk. right. right. right.
                 destruct (Z.eqb_spec b 0xF0); destruct (Z.eqb_spec b 0xF4);
                   zlia.
              ** rewrite well_formed_scalar by lia. apply Hk. now left.
      * destruct (Z.leb_spec 0xE0 b); [lia|]. cbn [andb].
        destruct (Z.leb_spec 0xF0 b); [lia|]. cbn [andb].
        rewrite well_formed_scalar by lia. apply Hk. now left.
  - destruct (Z.leb_spec 0xC2 b); [lia|]. cbn [andb].
    destruct (Z.leb_spec 0xE0 b); [lia|]. cbn [andb].
    destruct (Z.leb_spec 0xF0 b); [lia|]. cbn [andb].
    rewrite well_formed_scalar by lia. apply Hk. now left.
Qed.

Lemma decode_loop_well_formed (bs : bytes) :
  forall cp needed lower upper,
    decoder_state cp needed lower upper ->
    well_formed (decode_loop cp needed lower upper bs) = true.
Proof.
  induction bs as [|b rest IH]; intros cp needed lower upper Hst.
  - cbn [decode_loop]. destruct (needed =? 0); reflexivity.
  - cbn [decode_loop].
    destruct (Z.eqb_spec needed 0) as [Hz|Hz].
    + apply lead_byte_well_formed. intros; now apply IH.
    + destruct (Z.leb_spec lower b); cbn [andb];
        [destruct (Z.leb_spec b upper); cbn [andb]|].
      * destruct (Z.eqb_spec needed 1) as [H1|H1].
        -- rewrite well_formed_code_point.
           ++ apply IH. now left.
           ++ unfold decoder_state in Hst. zlia.
           ++ unfold decoder_state in Hst. zlia.
        -- apply IH. unfold decoder_state in *. zlia.
      * unfold REPLACEMENT. rewrite well_formed_scalar by lia.
        apply lead_byte_well_formed. intros; now apply IH.
      * unfold REPLACEMENT. rewrite well_formed_scalar by lia.
        apply lead_byte_well_formed. intros; now apply IH.
Qed.

(** Decoding never produces an unpaired surrogate. *)
Lemma toString_well_formed (bs : bytes) : well_formed (toString bs) = true.
Proof. apply decode_loop_well_formed. now left. Qed.

Lemma space_not_surrogate (u : Z) :
  is_space u = true -> 0 <= u < 0xD800 \/ 0xDFFF < u < 0x10000.
Proof.
  unfold is_space. intros H.
  repeat (apply orb_true_iff in H as [H|H]);
    repeat (apply andb_true_iff in H as [H ?]);
    rewrite ?Z.leb_le, ?Z.eqb_eq in *; lia.
Qed.

Lemma trimStart_well_formed (s : jsstring) :
  well_formed s = true -> well_formed (trimStart s) = true.
Proof.
  induction s as [|c t IH]; [reflexivity|]. intros Hwf.
  cbn [trimStart]. destruct (is_space c) eqn:Hc; [|exact Hwf].
  apply IH. now rewrite well_formed_scalar in Hwf by now apply space_not_surrogate.
Qed.

(** A well-formed string cut before a unit that is not a low surrogate. *)
Lemma well_formed_app_inv (p q : jsstring) :
  well_formed (p ++ q) = true ->
  match q with [] => True | c :: _ => is_low_surrogate c = false end ->
  well_formed p = true.
Proof.
  intros Hwf Hq. remember (length p) as n eqn:Hn. revert p Hn Hwf.
  induction n as [n IH] using (well_founded_induction Wf_nat.lt_wf).
  intros [|u t] Hn Hwf; [reflexivity|].
  cbn [app well_formed] in *.
  destruct (is_high_surrogate u).
  - destruct t as [|l t'].
    + cbn [app] in Hwf. destruct q as [|c q]; [discriminate|].
      rewrite Hq in Hwf. discriminate.
    + cbn [app] in Hwf. apply andb_true_iff in Hwf as [Hl Hwf].
      rewrite Hl. cbn [andb].
      apply (IH (length t')); [subst n; cbn; lia | reflexivity | exact Hwf].
  - apply andb_true_iff in Hwf as [Hu Hwf]. rewrite Hu. cbn [andb].
    apply (IH (length t)); [subst n; cbn; lia | reflexivity | exact Hwf].
Qed.

Lemma trimStart_split (s : jsstring) :
  exists sp, s = sp ++ trimStart s /\ Forall (fun u => is_space u = true) sp.
Proof.
  induction s as [|c t (sp & Ht & Hsp)]; [now exists []|].
  cbn [trimStart]. destruct (is_space c) eqn:Hc.
  - exists (c :: sp). split; [cbn [app]; now f_equal | now constructor].
  - now exists [].
Qed.

Lemma trim_well_formed (s : jsstring) :
  well_formed s = true -> well_formed (trim s) = true.
Proof.
  intros Hwf. apply trimStart_well_formed in Hwf. unfold trim.
  destruct (trimStart_split (rev (trimStart s))) as (sp & Hsplit & Hsp).
  apply (f_equal (@rev Z)) in Hsplit. rewrite rev_involutive, rev_app_distr in Hsplit.
  rewrite Hsplit in Hwf.
  apply (well_formed_app_inv _ _ Hwf).
  destruct (rev sp) as [|c r] eqn:Hr; [exact I|].
  assert (Hc : is_space c = true).
  { apply (proj1 (Forall_forall _ _) Hsp). apply in_rev. rewrite Hr. now left. }
  apply space_not_surrogate in Hc. unfold is_low_surrogate. cmp_cases; reflexivity.
Qed.

(** A string has at most as many code units as its encoding has bytes. *)
Lemma length_le_utf8_encode (s : jsstring) :
  (length s <= length (utf8_encode s))%nat.
Proof.
  remember (length s) as n eqn:Hn. revert s Hn.
  induction n as [n IH] using (well_founded_induction Wf_nat.lt_wf).
  intros [|u t] Hn; [subst; cbn; lia|].
  assert (Ht : (length t <= length (utf8_encode t))%nat).
  { apply (IH (length t)); [subst n; cbn; lia | reflexivity]. }
  cbn [utf8_encode]. subst n.
  destruct (u <? 0x80); [cbn [length]; lia|].
  destruct (u <? 0x800); [cbn [length]; lia|].
  destruct (is_high_surrogate u).
  - destruct t as [|l t']; [cbn; lia|].
    destruct (is_low_surrogate l); [|cbn [length] in *; lia].
    assert (Ht' : (length t' <= length (utf8_encode t'))%nat).
    { apply (IH (length t')); [cbn; lia | reflexivity]. }
    cbn [length]. lia.
  - destruct (is_low_surrogate u); cbn [length]; lia.
Qed.

Lemma str_length_le_byteLength (s : jsstring) : str_length s <= byteLength s.
Proof.
  unfold str_length, byteLength. pose proof (length_le_utf8_encode s). lia.
Qed.

Lemma utf8_encode_ascii_app (a s : jsstring) :
  is_ascii a -> utf8_encode (a ++ s) = a ++ utf8_encode s.
Proof.
  induction 1 as [|u a Hu _ IH]; [reflexivity|].
  cbn [app utf8_encode].
  destruct (Z.ltb_spec u 0x80); [|lia]. now rewrite IH.
Qed.

Lemma utf8_encode_ascii (a : jsstring) : is_ascii a -> utf8_encode a = a.
Proof.
  intros Ha. rewrite <- (app_nil_r a) at 1.
  rewrite utf8_encode_ascii_app by assumption. apply app_nil_r.
Qed.

Lemma well_formed_ascii_app (a s : jsstring) :
  is_ascii a -> well_formed (a ++ s) = well_formed s.
Proof.
  induction 1 as [|u a Hu _ IH]; [reflexivity|].
  cbn [app well_formed]. unfold is_high_surrogate, is_low_surrogate.
  cmp_cases. cbn [andb negb]. exact IH.
Qed.

Lemma utf8_encode_app (s t : jsstring) :
  well_formed s = true -> utf8_encode (s ++ t) = utf8_encode s ++ utf8_encode t.
Proof.
  intros Hwf0. pattern s.
  apply well_formed_ind; [reflexivity | | | exact Hwf0]; clear s Hwf0.
  - intros u s Hh Hl Hu Hwf IH. cbn [app utf8_encode]. rewrite Hh, Hl, IH.
    destruct (u <? 0x80); [reflexivity|]. destruct (u <? 0x800); reflexivity.
  - intros h l s Hh Hl Hwf IH.
    pose proof (high_surrogate_range h Hh).
    cbn [app]. rewrite !(utf8_encode_pair _ _ _ Hh Hl), IH. reflexivity.
Qed.

Lemma well_formed_app (s t : jsstring) :
  well_formed s = true -> well_formed (s ++ t) = well_formed t.
Proof.
  intros Hwf0. pattern s.
  apply well_formed_ind; [reflexivity | | | exact Hwf0]; clear s Hwf0.
  - intros u s Hh Hl Hu Hwf IH. cbn [app well_formed]. rewrite Hh, Hl, IH.
    destruct (Z.leb_spec 0 u); [|lia]. destruct (Z.ltb_spec u 0x10000); [|lia].
    reflexivity.
  - intros h l s Hh Hl Hwf IH. cbn [app well_formed]. now rewrite Hh, Hl, IH.
Qed.

Lemma byteLength_app (s t : jsstring) :
  well_formed s = true -> byteLength (s ++ t) = byteLength s + byteLength t.
Proof.
  intros Hwf. unfold byteLength.
  rewrite utf8_encode_app, length_app by assumption. lia.
Qed.

Lemma byteLength_ascii (a : jsstring) : is_ascii a -> byteLength a = str_length a.
Proof.
  intros Ha. unfold byteLength, str_length. now rewrite utf8_encode_ascii.
Qed.

Lemma byteLength_nonneg (s : jsstring) : 0 <= byteLength s.
Proof. unfold byteLength. lia. Qed.

(** ** Strings *)

Lemma slice_prefix (s : jsstring) (n : Z) :
  0 <= n -> slice s 0 (Some n) = firstn (Z.to_nat n) s.
Proof.
  intros Hn. unfold slice, relative_index, str_length.
  change (0 <? 0) with false. cbv iota.
  destruct (Z.ltb_spec n 0); [lia|].
  rewrite (Z.min_l 0) by lia. cbn [Z.to_nat skipn]. rewrite Z.sub_0_r.
  destruct (Z.le_gt_cases n (Z.of_nat (length s))).
  - now rewrite Z.min_l by lia.
  - rewrite Z.min_r by lia. rewrite Nat2Z.id.
    rewrite !firstn_all2; [reflexivity | lia | lia].
Qed.

Lemma slice_suffix (s : jsstring) (n : Z) :
  0 <= n -> slice s n None = skipn (Z.to_nat n) s.
Proof.
  intros Hn. unfold slice, relative_index, str_length.
  destruct (Z.ltb_spec n 0); [lia|].
  destruct (Z.le_gt_cases n (Z.of_nat (length s))).
  - rewrite Z.min_l by lia. apply firstn_all2. rewrite length_skipn. lia.
  - rewrite Z.min_r by lia. rewrite Nat2Z.id, Z.sub_diag.
    rewrite (skipn_all2 (n := Z.to_nat n)) by lia. reflexivity.
Qed.

Lemma starts_with_app (pat rest : jsstring) : starts_with pat (pat ++ rest) = true.
Proof.
  induction pat as [|p pat IH]; [reflexivity|].
  cbn [app starts_with]. now rewrite Z.eqb_refl, IH.
Qed.

Lemma indexOf_from_found (pat s : jsstring) (i : Z) :
  starts_with pat s = true -> indexOf_from pat s i = i.
Proof. intros H. destruct s; cbn [indexOf_from]; now rewrite H. Qed.

Lemma indexOf_from_range (pat s : jsstring) (i : Z) :
  indexOf_from pat s i = -1
  \/ i <= indexOf_from pat s i <= i + str_length s.
Proof.
  unfold str_length. revert i.
  induction s as [|c s IH]; intros i; cbn [indexOf_from].
  - destruct (starts_with pat []); [right; cbn; lia | now left].
  - destruct (starts_with pat (c :: s)); [right; cbn [length]; lia|].
    destruct (IH (i + 1)) as [H|H]; [now left | right; cbn [length]; lia].
Qed.

(** Whether the pattern is found does not depend on where counting starts. *)
Lemma indexOf_from_shift (pat s : jsstring) (i j : Z) :
  0 <= i -> 0 <= j ->
  indexOf_from pat s i = -1 -> indexOf_from pat s j = -1.
Proof.
  revert i j. induction s as [|c s IH]; intros i j Hi Hj; cbn [indexOf_from].
  - destruct (starts_with pat []); [lia | reflexivity].
  - destruct (starts_with pat (c :: s)); [lia|].
    apply IH; lia.
Qed.

(** A pattern whose first unit does not occur in [pre] is not found
    before the end of [pre]. *)
Lemma indexOf_from_skip (c : Z) (p pre s : jsstring) (i : Z) :
  Forall (fun u => u <> c) pre ->
  indexOf_from (c :: p) (pre ++ s) i
  = indexOf_from (c :: p) s (i + str_length pre).
Proof.
  unfold str_length. intros Hpre. revert i.
  induction Hpre as [|u pre Hu _ IH]; intros i.
  - cbn [app length]. f_equal. lia.
  - cbn [app indexOf_from starts_with].
    destruct (Z.eqb_spec c u); [congruence|]. cbn [andb].
    rewrite IH. f_equal. cbn [length]. lia.
Qed.

Lemma indexOf_first (c : Z) (p pre rest : jsstring) :
  Forall (fun u => u <> c) pre ->
  indexOf (pre ++ (c :: p) ++ rest) (c :: p) = str_length pre.
Proof.
  intros Hpre. unfold indexOf.
  rewrite indexOf_from_skip by assumption.
  rewrite indexOf_from_found by apply starts_with_app. lia.
Qed.

Lemma indexOf_absent (c : Z) (p pre s : jsstring) :
  Forall (fun u => u <> c) pre ->
  indexOf s (c :: p) = -1 ->
  indexOf (pre ++ s) (c :: p) = -1.
Proof.
  intros Hpre Hs. unfold indexOf in *.
  rewrite indexOf_from_skip by assumption.
  apply (indexOf_from_shift _ _ 0); unfold str_length; lia.
Qed.

Lemma indexOf_nonneg (s pat : jsstring) :
  indexOf s pat <> -1 -> 0 <= indexOf s pat <= str_length s.
Proof.
  unfold indexOf. destruct (indexOf_from_range pat s 0); lia.
Qed.

(** ** The header pattern *)

Lemma starts_with_ci_app (pat rest : jsstring) :
  starts_with_ci pat (pat ++ rest) = true.
Proof.
  induction pat as [|p pat IH]; [reflexivity|].
  cbn [app starts_with_ci]. now rewrite Z.eqb_refl, IH.
Qed.

Lemma take_digits_all (ds rest : jsstring) :
  Forall (fun u => is_digit u = true) ds ->
  match rest with [] => True | c :: _ => is_digit c = false end ->
  take_digits (ds ++ rest) = ds.
Proof.
  intros Hds Hrest. induction Hds as [|d ds Hd _ IH].
  - destruct rest as [|c rest]; [reflexivity|]. cbn. now rewrite Hrest.
  - cbn [app take_digits]. now rewrite Hd, IH.
Qed.

Lemma match_content_length_key (ds : jsstring) :
  ds <> [] -> Forall (fun u => is_digit u = true) ds ->
  match_content_length (content_length_key ++ ds) = Some ds.
Proof.
  intros Hne Hds.
  assert (H : match_here (content_length_key ++ ds) = Some ds).
  { unfold match_here. rewrite starts_with_ci_app.
    rewrite skipn_app, skipn_all, Nat.sub_diag. cbn [app skipn].
    rewrite <- (app_nil_r ds) at 1. rewrite take_digits_all by easy.
    destruct ds as [|d ds']; [now elim Hne | reflexivity]. }
  destruct (content_length_key ++ ds) eqn:E;
    cbn [match_content_length]; now rewrite H.
Qed.

(** A header that matches holds at least the seventeen units of the
    shortest match. *)
Lemma match_here_length (s ds : jsstring) :
  match_here s = Some ds -> (17 <= length s)%nat.
Proof.
  unfold match_here.
  destruct (starts_with_ci content_length_key s) eqn:Hk; [|discriminate].
  destruct (take_digits (skipn (length content_length_key) s)) eqn:Hd;
    [discriminate|].
  intros _.
  assert (Hlen : (length (skipn (length content_length_key) s) <> 0)%nat).
  { destruct (skipn (length content_length_key) s); [discriminate | cbn; lia]. }
  rewrite length_skipn in Hlen. change (length content_length_key) with 16%nat in Hlen.
  lia.
Qed.

Lemma match_content_length_length (s ds : jsstring) :
  match_content_length s = Some ds -> (17 <= length s)%nat.
Proof.
  induction s as [|c s IH]; cbn [match_content_length].
  - destruct (match_here []) eqn:H; [|discriminate].
    intros _. exact (match_here_length _ _ H).
  - destruct (match_here (c :: s)) eqn:H.
    + intros _. exact (match_here_length _ _ H).
    + intros Hs. specialize (IH Hs). cbn [length]. lia.
Qed.

(** ** Decimal numbers *)

Lemma parseInt_digits_fuel (fuel : nat) (n : Z) (acc : jsstring) :
  0 <= n < 2 ^ Z.of_nat fuel ->
  fold_left (fun a d => 10 * a + (d - 48)) (digits_fuel fuel n acc) 0
  = fold_left (fun a d => 10 * a + (d - 48)) acc n.
Proof.
  revert n acc. induction fuel as [|fuel IH]; intros n acc Hn.
  - cbn in Hn. cbn [digits_fuel]. now replace n with 0 by lia.
  - cbn [digits_fuel]. destruct (Z.eqb_spec (n / 10) 0) as [Hq|Hq].
    + cbn [fold_left]. f_equal. zlia.
    + rewrite IH.
      * cbn [fold_left]. f_equal. zlia.
      * rewrite Nat2Z.inj_succ, Z.pow_succ_r in Hn by lia. zlia.
Qed.

Lemma log2_fuel (n : Z) : 0 <= n -> n < 2 ^ Z.of_nat (S (Z.to_nat (Z.log2 n))).
Proof.
  intros Hn. rewrite Nat2Z.inj_succ, Z2Nat.id by apply Z.log2_nonneg.
  destruct (Z.eq_dec n 0) as [->|Hz]; [reflexivity|].
  apply Z.log2_spec. lia.
Qed.

Lemma parseInt_number_to_string (n : Z) :
  0 <= n -> parseInt (number_to_string n) = n.
Proof.
  intros Hn. unfold parseInt, number_to_string.
  rewrite parseInt_digits_fuel; [reflexivity|].
  split; [assumption | now apply log2_fuel].
Qed.

Lemma digits_fuel_digits (fuel : nat) (n : Z) (acc : jsstring) :
  Forall (fun u => is_digit u = true) acc ->
  Forall (fun u => is_digit u = true) (digits_fuel fuel n acc).
Proof.
  revert n acc. induction fuel as [|fuel IH]; intros n acc Hacc; [exact Hacc|].
  cbn [digits_fuel].
  assert (Hd : Forall (fun u => is_digit u = true) ((48 + n mod 10) :: acc)).
  { constructor; [|exact Hacc]. unfold is_digit.
    destruct (Z.leb_spec 48 (48 + n mod 10)); [|zlia].
    destruct (Z.leb_spec (48 + n mod 10) 57); [reflexivity | zlia]. }
  destruct (n / 10 =? 0); [exact Hd | now apply IH].
Qed.

Lemma digits_fuel_length (fuel : nat) (n : Z) (acc : jsstring) :
  (length acc + Nat.min 1 fuel <= length (digits_fuel fuel n acc))%nat.
Proof.
  revert n acc. induction fuel as [|fuel IH]; intros n acc; [cbn; lia|].
  cbn [digits_fuel]. destruct (n / 10 =? 0); [cbn; lia|].
  specialize (IH (n / 10) ((48 + n mod 10) :: acc)). cbn [length] in IH. lia.
Qed.

Lemma number_to_string_digits (n : Z) :
  Forall (fun u => is_digit u = true) (number_to_string n).
Proof. apply digits_fuel_digits. constructor. Qed.

Lemma number_to_string_nonempty (n : Z) : number_to_string n <> [].
Proof.
  unfold number_to_string. intros H.
  pose proof (digits_fuel_length (S (Z.to_nat (Z.log2 n))) n []) as Hl.
  rewrite H in Hl. cbn in Hl. lia.
Qed.

(** ** The frame header *)

Lemma digit_range (u : Z) : is_digit u = true -> 48 <= u <= 57.
Proof.
  unfold is_digit. intros H. apply andb_true_iff in H as [H1 H2].
  rewrite Z.leb_le in H1, H2. lia.
Qed.

(** The header [checkAndSendClipboardData] writes is ASCII and holds
    neither a carriage return nor a line feed. *)
Lemma header_units (n : Z) :
  Forall (fun u => 32 <= u < 0x80)
         (content_length_key ++ number_to_string n).
Proof.
  apply Forall_app. split.
  - unfold content_length_key. cbn. repeat constructor; lia.
  - eapply Forall_impl; [|apply number_to_string_digits].
    intros u Hu. apply digit_range in Hu. lia.
Qed.

(** ** One turn of the loop *)

Lemma find_delimiter_crlf (hdr rest : jsstring) :
  Forall (fun u => u <> CR) hdr ->
  find_delimiter (hdr ++ CRLFCRLF ++ rest) = (str_length hdr, 4).
Proof.
  intros Hh. unfold find_delimiter, CRLFCRLF.
  rewrite indexOf_first by exact Hh.
  unfold str_length. destruct (Z.eqb_spec (Z.of_nat (length hdr)) (-1)); [lia|].
  reflexivity.
Qed.

Lemma find_delimiter_lf (hdr rest : jsstring) :
  Forall (fun u => u <> CR) hdr -> Forall (fun u => u <> LF) hdr ->
  indexOf rest CRLFCRLF = -1 ->
  find_delimiter (hdr ++ LFLF ++ rest) = (str_length hdr, 2).
Proof.
  intros Hcr Hlf Hrest. unfold find_delimiter.
  replace (indexOf (hdr ++ LFLF ++ rest) CRLFCRLF) with (-1).
  - change (-1 =? -1) with true. cbv iota. unfold LFLF.
    now rewrite indexOf_first.
  - symmetry. rewrite app_assoc. apply indexOf_absent; [|exact Hrest].
    apply Forall_app. split; [exact Hcr|].
    unfold LFLF, LF, CR. repeat constructor; lia.
Qed.

Lemma header_no_cr (n : Z) :
  Forall (fun u => u <> CR) (content_length_key ++ number_to_string n).
Proof.
  eapply Forall_impl; [|apply header_units]. unfold CR. cbn beta. lia.
Qed.

Lemma header_no_lf (n : Z) :
  Forall (fun u => u <> LF) (content_length_key ++ number_to_string n).
Proof.
  eapply Forall_impl; [|apply header_units]. unfold LF. cbn beta. lia.
Qed.

(** A turn that finds the delimiter right after a header carrying the
    length [n], with at least [n] bytes of content behind it. *)
Lemma tryExtractOne_frame (buffer hdr delim content ds : jsstring) (n : Z) :
  buffer = hdr ++ delim ++ content ->
  find_delimiter buffer = (str_length hdr, str_length delim) ->
  match_content_length hdr = Some ds ->
  parseInt ds = n -> 0 <= n <= byteLength content ->
  tryExtractOne buffer
  = Message (firstn (Z.to_nat n) content) (skipn (Z.to_nat n) content).
Proof.
  intros -> Hfind Hmatch Hparse Hn. unfold tryExtractOne. rewrite Hfind.
  unfold str_length at 1.
  destruct (Z.eqb_spec (Z.of_nat (length hdr)) (-1)); [lia|].
  rewrite slice_prefix by (unfold str_length; lia).
  rewrite slice_suffix by (unfold str_length; lia).
  unfold str_length.
  rewrite Nat2Z.id, firstn_app, firstn_all, Nat.sub_diag, firstn_O, app_nil_r.
  rewrite Hmatch, Hparse.
  replace (Z.to_nat (Z.of_nat (length hdr) + Z.of_nat (length delim)))
    with (length hdr + length delim)%nat by lia.
  rewrite <- length_app, app_assoc, skipn_app, skipn_all, Nat.sub_diag.
  cbn [app skipn].
  destruct (Z.ltb_spec (byteLength content) n); [lia|].
  now rewrite slice_prefix, slice_suffix by lia.
Qed.

Lemma tryExtractOne_message (s rest : jsstring) :
  well_formed s = true ->
  tryExtractOne (message s ++ rest)
  = Message (firstn (Z.to_nat (byteLength s)) (s ++ rest))
            (skipn (Z.to_nat (byteLength s)) (s ++ rest)).
Proof.
  intros Hwf.
  apply (tryExtractOne_frame _ (content_length_key ++ number_to_string (byteLength s))
           CRLFCRLF _ (number_to_string (byteLength s))).
  - unfold message. now rewrite <- !app_assoc.
  - unfold message. rewrite <- !app_assoc.
    rewrite (app_assoc content_length_key).
    apply find_delimiter_crlf, header_no_cr.
  - apply match_content_length_key;
      [apply number_to_string_nonempty | apply number_to_string_digits].
  - apply parseInt_number_to_string, byteLength_nonneg.
  - rewrite byteLength_app by assumption.
    pose proof (byteLength_nonneg s). pose proof (byteLength_nonneg rest). lia.
Qed.

Lemma tryExtractOne_message_lf (s rest : jsstring) :
  well_formed s = true ->
  indexOf (s ++ rest) CRLFCRLF = -1 ->
  tryExtractOne (message_lf s ++ rest)
  = Message (firstn (Z.to_nat (byteLength s)) (s ++ rest))
            (skipn (Z.to_nat (byteLength s)) (s ++ rest)).
Proof.
  intros Hwf Hno.
  apply (tryExtractOne_frame _ (content_length_key ++ number_to_string (byteLength s))
           LFLF _ (number_to_string (byteLength s))).
  - unfold message_lf. now rewrite <- !app_assoc.
  - unfold message_lf. rewrite <- !app_assoc.
    rewrite (app_assoc content_length_key).
    apply find_delimiter_lf;
      [apply header_no_cr | apply header_no_lf | exact Hno].
  - apply match_content_length_key;
      [apply number_to_string_nonempty | apply number_to_string_digits].
  - apply parseInt_number_to_string, byteLength_nonneg.
  - rewrite byteLength_app by assumption.
    pose proof (byteLength_nonneg s). pose proof (byteLength_nonneg rest). lia.
Qed.

(** ** The loop *)

Lemma find_delimiter_range (buffer : jsstring) (headerEnd dl : Z) :
  find_delimiter buffer = (headerEnd, dl) ->
  (dl = 2 \/ dl = 4)
  /\ (headerEnd = -1 \/ 0 <= headerEnd <= str_length buffer).
Proof.
  unfold find_delimiter.
  destruct (Z.eqb_spec (indexOf buffer CRLFCRLF) (-1)) as [E|E];
    intros [= <- <-].
  - split; [now left|].
    destruct (Z.eq_dec (indexOf buffer LFLF) (-1)) as [E2|E2]; [now left|].
    right. now apply indexOf_nonneg.
  - split; [now right|]. right. now apply indexOf_nonneg.
Qed.

(** What a turn that extracts a message has done, in the words of the
    source. *)
Lemma tryExtractOne_Message_inv (buffer body rest : jsstring) :
  tryExtractOne buffer = Message body rest ->
  exists headerEnd delimiterLength digits,
    find_delimiter buffer = (headerEnd, delimiterLength)
    /\ 0 <= headerEnd <= str_length buffer
    /\ (delimiterLength = 2 \/ delimiterLength = 4)
    /\ match_content_length (firstn (Z.to_nat headerEnd) buffer) = Some digits
    /\ let content := skipn (Z.to_nat (headerEnd + delimiterLength)) buffer in
       let contentLength := parseInt digits in
       contentLength <= byteLength content
       /\ body = slice content 0 (Some contentLength)
       /\ rest = slice content contentLength None.
Proof.
  unfold tryExtractOne.
  destruct (find_delimiter buffer) as [headerEnd dl] eqn:Hfind.
  destruct (find_delimiter_range _ _ _ Hfind) as [Hdl Hhe].
  destruct (Z.eqb_spec headerEnd (-1)); [discriminate|].
  destruct Hhe as [|Hhe]; [contradiction|].
  rewrite slice_prefix, slice_suffix by lia.
  destruct (match_content_length (firstn (Z.to_nat headerEnd) buffer))
    as [digits|] eqn:Hm; [|discriminate].
  destruct (Z.ltb_spec (byteLength (skipn (Z.to_nat (headerEnd + dl)) buffer))
                       (parseInt digits)); [discriminate|].
  intros [= <- <-]. exists headerEnd, dl, digits. cbv zeta. tauto.
Qed.

Lemma slice_length_le (s : jsstring) (a : Z) (b : option Z) :
  (length (slice s a b) <= length s)%nat.
Proof.
  unfold slice. rewrite length_firstn, length_skipn. lia.
Qed.

(** A turn that extracts a message leaves a shorter buffer: the header
    that matched has at least seventeen units. *)
Lemma tryExtractOne_shrinks (buffer body rest : jsstring) :
  tryExtractOne buffer = Message body rest ->
  (length rest + 17 <= length buffer)%nat.
Proof.
  intros H.
  destruct (tryExtractOne_Message_inv _ _ _ H)
    as (he & dl & ds & _ & Hhe & Hdl & Hm & _ & _ & ->).
  apply match_content_length_length in Hm. rewrite length_firstn in Hm.
  pose proof (slice_length_le
                (skipn (Z.to_nat (he + dl)) buffer) (parseInt ds) None) as Hs.
  rewrite length_skipn in Hs. lia.
Qed.

Lemma while_loop_enough (buffer : jsstring) :
  exists r, forall fuel, (length buffer < fuel)%nat -> while_loop fuel buffer = Some r.
Proof.
  remember (length buffer) as n eqn:Hn. revert buffer Hn.
  induction n as [n IH] using (well_founded_induction Wf_nat.lt_wf).
  intros buffer Hn.
  destruct (str_length buffer >? 0) eqn:Hlen.
  - destruct (tryExtractOne buffer) as [| |body rest] eqn:Hx.
    + exists ([], buffer). intros [|fuel] Hf; [lia|].
      cbn [while_loop]. now rewrite Hlen, Hx.
    + exists ([], []). intros [|fuel] Hf; [lia|].
      cbn [while_loop]. now rewrite Hlen, Hx.
    + pose proof (tryExtractOne_shrinks _ _ _ Hx) as Hs.
      destruct (IH (length rest) ltac:(lia) rest eq_refl) as [[bodies b'] Hr].
      exists (body :: bodies, b'). intros [|fuel] Hf; [lia|].
      cbn [while_loop]. rewrite Hlen, Hx, Hr by lia. reflexivity.
  - exists ([], buffer). intros [|fuel] Hf; [lia|].
    cbn [while_loop]. now rewrite Hlen.
Qed.

Lemma while_loop_drain (buffer : jsstring) (fuel : nat) :
  (length buffer < fuel)%nat -> while_loop fuel buffer = Some (drain buffer).
Proof.
  intros Hf. destruct (while_loop_enough buffer) as [r Hr].
  unfold drain. rewrite (Hr (S (length buffer))) by lia. now apply Hr.
Qed.

(** The loop, one turn at a time. *)
Lemma drain_unfold (buffer : jsstring) :
  drain buffer
  = if str_length buffer >? 0 then
      match tryExtractOne buffer with
      | Incomplete => ([], buffer)
      | Malformed => ([], [])
      | Message body rest =>
        let '(bodies, buffer') := drain rest in (body :: bodies, buffer')
      end
    else ([], buffer).
Proof.
  unfold drain at 1. cbn [while_loop].
  destruct (str_length buffer >? 0); [|reflexivity].
  destruct (tryExtractOne buffer) as [| |body rest] eqn:Hx; try reflexivity.
  apply tryExtractOne_shrinks in Hx.
  rewrite while_loop_drain by lia. now destruct (drain rest).
Qed.

Lemma drain_nil : drain [] = ([], []).
Proof. reflexivity. Qed.

Lemma str_length_pos (s : jsstring) : s <> [] -> (str_length s >? 0) = true.
Proof.
  intros Hs. unfold str_length. destruct s; [contradiction|].
  cbn [length]. apply Z.gtb_lt. lia.
Qed.

Lemma message_nonempty (s : jsstring) : message s <> [].
Proof. unfold message, content_length_key. cbn. discriminate. Qed.

(** ** Frames on the wire *)

Lemma message_prefix_ascii (n : Z) :
  is_ascii ((content_length_key ++ number_to_string n) ++ CRLFCRLF).
Proof.
  apply Forall_app. split.
  - eapply Forall_impl; [|apply header_units]. cbn beta. lia.
  - unfold CRLFCRLF, CR, LF. repeat constructor; lia.
Qed.

Lemma message_split (s : jsstring) :
  message s
  = ((content_length_key ++ number_to_string (byteLength s)) ++ CRLFCRLF) ++ s.
Proof. unfold message. now rewrite <- !app_assoc. Qed.

Lemma message_well_formed (s : jsstring) :
  well_formed (message s) = well_formed s.
Proof.
  rewrite message_split. apply well_formed_ascii_app, message_prefix_ascii.
Qed.

(** What the peer's decoder reads back from the bytes of a frame is the
    frame. *)
Lemma toString_encode (s : jsstring) :
  well_formed s = true -> toString (encode s) = message s.
Proof.
  intros Hwf. unfold encode, Buffer_from.
  apply toString_utf8_encode. now rewrite message_well_formed.
Qed.

Lemma firstn_byteLength (s : jsstring) :
  firstn (Z.to_nat (byteLength s)) s = s.
Proof.
  apply firstn_all2. pose proof (length_le_utf8_encode s).
  unfold byteLength. lia.
Qed.

Lemma skipn_byteLength (s : jsstring) :
  skipn (Z.to_nat (byteLength s)) s = [].
Proof.
  apply skipn_all2. pose proof (length_le_utf8_encode s).
  unfold byteLength. lia.
Qed.

(** The loop on a buffer that holds exactly one frame. *)
Lemma drain_message (s : jsstring) :
  well_formed s = true -> drain (message s) = ([s], []).
Proof.
  intros Hwf. rewrite drain_unfold.
  rewrite str_length_pos by apply message_nonempty.
  rewrite <- (app_nil_r (message s)), tryExtractOne_message by assumption.
  rewrite app_nil_r, firstn_byteLength, skipn_byteLength. reflexivity.
Qed.

(** C1. Round trip: a frame built as [checkAndSendClipboardData] builds it,
    ["Content-Length: " + byteLength(s) + "\r\n\r\n" + s] in UTF-8, and
    received as one buffer on a connection whose buffer is empty, gives
    exactly one body, [s], and leaves the buffer empty.  The strings are
    those UTF-8 can carry: no unpaired surrogate (the empty string,
    multi-byte characters and line breaks included). *)
Theorem round_trip (st : conn) (s : jsstring) :
  buffer st = [] -> well_formed s = true ->
  on_data st (encode s) = (st, [s]).
Proof.
  intros Hb Hwf. unfold on_data.
  rewrite Hb, toString_encode by assumption. cbn [app].
  rewrite drain_message by assumption.
  destruct st as [b lc lb sk]. cbn [buffer] in Hb. now subst b.
Qed.

Lemma round_trip_witness :
  on_data initial (encode [0x68; 0xE9; CR; LF; CR; LF; 0xD83D; 0xDE00; LF])
  = (initial, [[0x68; 0xE9; CR; LF; CR; LF; 0xD83D; 0xDE00; LF]])
  /\ on_data initial (encode []) = (initial, [[]]).
Proof. split; apply (round_trip initial); reflexivity. Defined.

(** ** Results of a turn *)

Lemma indexOf_nil (c : Z) (p : jsstring) : indexOf [] (c :: p) = -1.
Proof. reflexivity. Qed.

Lemma find_delimiter_nonempty (buffer : jsstring) (headerEnd dl : Z) :
  find_delimiter buffer = (headerEnd, dl) -> headerEnd <> -1 -> buffer <> [].
Proof.
  intros Hfind Hhe ->. unfold find_delimiter in Hfind. cbn in Hfind.
  injection Hfind as <- <-. now apply Hhe.
Qed.

Lemma tryExtractOne_eq (buf : jsstring) (headerEnd dl : Z) :
  find_delimiter buf = (headerEnd, dl) ->
  tryExtractOne buf
  = if headerEnd =? -1 then Incomplete
    else match match_content_length (slice buf 0 (Some headerEnd)) with
         | None => Malformed
         | Some digits =>
           if byteLength (slice buf (headerEnd + dl) None) <? parseInt digits
           then Incomplete
           else Message
                  (slice (slice buf (headerEnd + dl) None) 0
                         (Some (parseInt digits)))
                  (slice (slice buf (headerEnd + dl) None) (parseInt digits)
                         None)
         end.
Proof. intros H. unfold tryExtractOne. now rewrite H. Qed.

Lemma find_delimiter_absent (buf : jsstring) (headerEnd dl : Z) :
  find_delimiter buf = (headerEnd, dl) ->
  headerEnd = -1 <-> indexOf buf CRLFCRLF = -1 /\ indexOf buf LFLF = -1.
Proof.
  unfold find_delimiter.
  destruct (Z.eqb_spec (indexOf buf CRLFCRLF) (-1)) as [E|E];
    intros [= <- <-]; tauto.
Qed.

Lemma on_data_drain (st : conn) (data : bytes) :
  on_data st data
  = after_data st (fst (drain (buffer st ++ toString data)))
               (snd (drain (buffer st ++ toString data))).
Proof.
  unfold on_data, after_data. now destruct (drain (buffer st ++ toString data)).
Qed.

(** A turn that finds a delimiter behind a header without the pattern. *)
Lemma tryExtractOne_malformed (buf : jsstring) (headerEnd dl : Z) :
  find_delimiter buf = (headerEnd, dl) ->
  headerEnd <> -1 ->
  match_content_length (slice buf 0 (Some headerEnd)) = None ->
  tryExtractOne buf = Malformed.
Proof.
  intros Hfind Hhe Hm. rewrite (tryExtractOne_eq _ _ _ Hfind).
  destruct (Z.eqb_spec headerEnd (-1)); [contradiction|]. now rewrite Hm.
Qed.

Lemma drain_malformed (buf : jsstring) :
  tryExtractOne buf = Malformed -> drain buf = ([], []).
Proof.
  intros Hx. destruct buf as [|c t]; [reflexivity|].
  now rewrite drain_unfold, str_length_pos, Hx.
Qed.

(** C8. When a delimiter is found ([headerEnd] is not -1) and the header
    before it does not match [/Content-Length: (\d+)/i], the turn is
    [Malformed], the loop stops with the whole buffer discarded, and the
    read event that brought the buffer to this state starts no clipboard
    write at all: whatever follows the malformed header, a valid frame
    included, is dropped unparsed. *)
Theorem malformed_discards_buffer (buf : jsstring) (headerEnd dl : Z) :
  find_delimiter buf = (headerEnd, dl) ->
  headerEnd <> -1 ->
  match_content_length (slice buf 0 (Some headerEnd)) = None ->
  tryExtractOne buf = Malformed
  /\ drain buf = ([], [])
  /\ forall st data,
      buffer st ++ toString data = buf ->
      on_data st data = after_data st [] [].
Proof.
  intros Hfind Hhe Hm.
  pose proof (tryExtractOne_malformed _ _ _ Hfind Hhe Hm) as Hx.
  pose proof (drain_malformed _ Hx) as Hd.
  repeat split; try assumption.
  intros st data Hb. now rewrite on_data_drain, Hb, Hd.
Qed.

Lemma malformed_discards_buffer_witness :
  let buf := lit "garbage" ++ CRLFCRLF ++ lit "body" ++ message (lit "x") in
  tryExtractOne buf = Malformed
  /\ drain buf = ([], [])
  /\ forall st data,
      buffer st ++ toString data = buf -> on_data st data = after_data st [] [].
Proof.
  apply (malformed_discards_buffer _ 7 4); [reflexivity | lia | reflexivity].
Defined.

(** A malformed header in front of anything, a valid frame included:
    nothing behind it is parsed. *)
Lemma garbage_then_frames (garbage tail : jsstring) (data : bytes) :
  Forall (fun u => u <> CR) garbage ->
  match_content_length garbage = None ->
  toString data = garbage ++ CRLFCRLF ++ tail ->
  on_data initial data = (initial, []).
Proof.
  intros Hcr Hm Hdata.
  pose proof (find_delimiter_crlf garbage tail Hcr) as Hfind.
  rewrite on_data_drain. cbn [buffer initial app]. rewrite Hdata.
  rewrite drain_malformed; [reflexivity|].
  apply (tryExtractOne_malformed _ _ _ Hfind).
  - unfold str_length. lia.
  - rewrite slice_prefix by (unfold str_length; lia).
    unfold str_length. rewrite Nat2Z.id, firstn_app, firstn_all, Nat.sub_diag.
    cbn [firstn]. now rewrite app_nil_r.
Qed.

(** C9. A turn is [Incomplete] exactly when neither delimiter occurs in
    the buffer, or when the header matches and the content after the
    delimiter has fewer UTF-8 bytes than the length the header announces;
    the loop then stops with the buffer as it was, and so does the read
    event. *)
Theorem incomplete_keeps_buffer (buf : jsstring) :
  (tryExtractOne buf = Incomplete
   <-> (indexOf buf CRLFCRLF = -1 /\ indexOf buf LFLF = -1)
       \/ exists headerEnd dl digits,
           find_delimiter buf = (headerEnd, dl) /\ headerEnd <> -1
           /\ match_content_length (slice buf 0 (Some headerEnd)) = Some digits
           /\ byteLength (slice buf (headerEnd + dl) None) < parseInt digits)
  /\ (tryExtractOne buf = Incomplete ->
      drain buf = ([], buf)
      /\ forall st data,
          buffer st ++ toString data = buf ->
          on_data st data = after_data st [] buf).
Proof.
  split.
  - destruct (find_delimiter buf) as [he dl] eqn:Hfind.
    rewrite (tryExtractOne_eq _ _ _ Hfind).
    pose proof (find_delimiter_absent _ _ _ Hfind) as Habs.
    destruct (Z.eqb_spec he (-1)) as [E|E].
    + split; [intros _; left; now apply Habs | reflexivity].
    + destruct (match_content_length (slice buf 0 (Some he))) as [ds|] eqn:Hm.
      * destruct (Z.ltb_spec (byteLength (slice buf (he + dl) None))
                             (parseInt ds)) as [Hlt|Hge].
        -- split; [|reflexivity]. intros _. right.
           exists he, dl, ds. repeat split; auto.
        -- split; [discriminate|].
           intros [H|(he' & dl' & ds' & [= <- <-] & _ & Hm' & Hlt)];
             [apply Habs in H; contradiction|].
           rewrite Hm in Hm'. injection Hm' as <-. lia.
      * split; [discriminate|].
        intros [H|(he' & dl' & ds' & [= <- <-] & _ & Hm' & _)];
          [apply Habs in H; contradiction | congruence].
  - intros Hx.
    assert (Hd : drain buf = ([], buf)).
    { rewrite drain_unfold, Hx. now destruct (str_length buf >? 0). }
    split; [exact Hd|].
    intros st data Hb. now rewrite on_data_drain, Hb, Hd.
Qed.

Lemma incomplete_keeps_buffer_witness :
  let buf := lit "Content-Length: 5" ++ CRLFCRLF ++ [0x68; 0xE9; 0x6C] in
  drain buf = ([], buf)
  /\ forall st data,
      buffer st ++ toString data = buf -> on_data st data = after_data st [] buf.
Proof.
  apply (proj2 (incomplete_keeps_buffer
                  (lit "Content-Length: 5" ++ CRLFCRLF ++ [0x68; 0xE9; 0x6C]))).
  reflexivity.
Defined.

(** C10. The loop terminates on every buffer.  A header that matches the
    pattern is not empty, so a turn that extracts a message removes at
    least one unit and leaves a strictly shorter buffer; every other turn
    returns.  Hence a bound of one turn more than the buffer has units is
    never reached: with any such bound the loop ends with the result
    [drain] gives. *)
Theorem while_loop_terminates (buf : jsstring) :
  (forall header digits,
      match_content_length header = Some digits -> header <> [])
  /\ (forall body rest,
        tryExtractOne buf = Message body rest ->
        (length rest < length buf)%nat)
  /\ (forall fuel,
        (length buf < fuel)%nat -> while_loop fuel buf = Some (drain buf)).
Proof.
  repeat split.
  - intros header digits Hm ->. apply match_content_length_length in Hm.
    cbn in Hm. lia.
  - intros body rest Hx. apply tryExtractOne_shrinks in Hx. lia.
  - intros fuel. apply while_loop_drain.
Qed.

Lemma while_loop_terminates_witness :
  let buf := message (lit "a") ++ lit "Content-" in
  lit "Content-Length: 1" <> []
  /\ (length (lit "Content-") < length buf)%nat
  /\ while_loop 40 buf = Some (drain buf).
Proof.
  destruct (while_loop_terminates (message (lit "a") ++ lit "Content-"))
    as (Hheader & Hshrink & Hfuel).
  split; [exact (Hheader (lit "Content-Length: 1") (lit "1") eq_refl)|].
  split; [exact (Hshrink (lit "a") (lit "Content-") eq_refl)|].
  apply Hfuel. vm_compute. lia.
Defined.

(** ** The echo guard *)

Lemma str_eqb_eq (a b : jsstring) : str_eqb a b = true <-> a = b.
Proof. unfold str_eqb. destruct (list_eq_dec Z.eq_dec a b); intuition congruence. Qed.

Lemma str_eqb_neq (a b : jsstring) : str_eqb a b = false <-> a <> b.
Proof. unfold str_eqb. destruct (list_eq_dec Z.eq_dec a b); intuition congruence. Qed.

Lemma checkAndSendClipboardData_sample (st : conn) (stdout : jsstring) :
  checkAndSendClipboardData st (Some stdout)
  = onClipboardSample st (trim stdout).
Proof. reflexivity. Qed.

(** A failed clipboard read is logged: nothing is sent, and nothing
    changes but the flag the tick may have consumed. *)
Lemma checkAndSendClipboardData_read_error (st : conn) :
  checkAndSendClipboardData st None
  = (mkConn (buffer st) (lastClientContent st) (lastClipboardContent st) false,
     Suppress).
Proof.
  unfold checkAndSendClipboardData, poll_begin.
  destruct st as [b lc lb []]; reflexivity.
Qed.

Lemma poll_compare_emit (st : conn) (value : jsstring) :
  value <> [] -> value <> lastClipboardContent st ->
  value <> lastClientContent st ->
  poll_compare st value
  = (mkConn (buffer st) (lastClientContent st) value (skipNextCheck st),
     Emit value).
Proof.
  intros H1 H2 H3. unfold poll_compare.
  apply str_eqb_neq in H1, H2, H3. now rewrite H1, H2, H3.
Qed.

Lemma poll_compare_suppress (st : conn) (value : jsstring) :
  value = [] \/ value = lastClipboardContent st
  \/ value = lastClientContent st ->
  poll_compare st value = (st, Suppress).
Proof.
  intros H. unfold poll_compare.
  destruct (str_eqb value []) eqn:E1; [reflexivity|].
  destruct (str_eqb value (lastClipboardContent st)) eqn:E2; [reflexivity|].
  destruct (str_eqb value (lastClientContent st)) eqn:E3; [reflexivity|].
  apply str_eqb_neq in E1, E2, E3. tauto.
Qed.

Lemma onClipboardSample_flag (st : conn) (value : jsstring) :
  skipNextCheck st = true ->
  onClipboardSample st value
  = (mkConn (buffer st) (lastClientContent st) (lastClipboardContent st) false,
     Suppress).
Proof. intros H. unfold onClipboardSample, poll_begin. now rewrite H. Qed.

Lemma onClipboardSample_compare (st : conn) (value : jsstring) :
  skipNextCheck st = false ->
  onClipboardSample st value = poll_compare st value.
Proof. intros H. unfold onClipboardSample, poll_begin. now rewrite H. Qed.

(** C5. A poll tick on the clipboard text [value] sends nothing exactly
    when [skipNextCheck] is set, or [value] is empty, or equals the last
    text sent ([lastClipboardContent]), or equals the last text received
    ([lastClientContent]).  With the flag set the tick only clears it.  A
    tick that sends nothing leaves both remembered texts as they were; any
    other tick sends the frame of [value] and remembers [value] as the last
    text sent. *)
Theorem onClipboardSample_spec (st : conn) (value : jsstring) :
  let suppressed :=
    skipNextCheck st = true \/ value = []
    \/ value = lastClipboardContent st \/ value = lastClientContent st in
  (snd (onClipboardSample st value) = Suppress <-> suppressed)
  /\ (skipNextCheck st = true ->
      onClipboardSample st value
      = (mkConn (buffer st) (lastClientContent st) (lastClipboardContent st)
                false, Suppress))
  /\ (skipNextCheck st = false -> suppressed ->
      onClipboardSample st value = (st, Suppress))
  /\ (~ suppressed ->
      onClipboardSample st value
      = (mkConn (buffer st) (lastClientContent st) value false, Emit value))
  /\ (snd (onClipboardSample st value) = Suppress ->
      lastClipboardContent (fst (onClipboardSample st value))
      = lastClipboardContent st
      /\ lastClientContent (fst (onClipboardSample st value))
         = lastClientContent st).
Proof.
  intros suppressed. subst suppressed.
  unfold onClipboardSample, poll_begin.
  destruct (skipNextCheck st) eqn:Hskip.
  - cbn [fst snd]. repeat split; try tauto; try discriminate.
  - destruct (list_eq_dec Z.eq_dec value []) as [E1|E1];
      [rewrite poll_compare_suppress by tauto; cbn [fst snd];
       repeat split; try tauto; try discriminate|].
    destruct (list_eq_dec Z.eq_dec value (lastClipboardContent st)) as [E2|E2];
      [rewrite poll_compare_suppress by tauto; cbn [fst snd];
       repeat split; try tauto; try discriminate|].
    destruct (list_eq_dec Z.eq_dec value (lastClientContent st)) as [E3|E3];
      [rewrite poll_compare_suppress by tauto; cbn [fst snd];
       repeat split; try tauto; try discriminate|].
    rewrite poll_compare_emit by assumption. cbn [fst snd]. rewrite Hskip.
    unfold Emit, Suppress.
    repeat split; try tauto; try discriminate.
    + intros [H|[H|[H|H]]]; [discriminate | tauto | tauto | tauto].
    + intros _ [H|[H|[H|H]]]; [discriminate | tauto | tauto | tauto].
Qed.

Lemma onClipboardSample_spec_witness :
  let st := mkConn [] (lit "remote") (lit "local") false in
  let flagged := mkConn [] (lit "remote") (lit "local") true in
  onClipboardSample flagged (lit "new") = (st, Suppress)
  /\ onClipboardSample st (lit "remote") = (st, Suppress)
  /\ onClipboardSample st (lit "new")
     = (mkConn [] (lit "remote") (lit "new") false, Emit (lit "new"))
  /\ lastClipboardContent (fst (onClipboardSample st (lit "local")))
     = lit "local".
Proof.
  pose proof (onClipboardSample_spec
                (mkConn [] (lit "remote") (lit "local") true) (lit "new"))
    as (_ & Hflag & _).
  pose proof (onClipboardSample_spec
                (mkConn [] (lit "remote") (lit "local") false) (lit "remote"))
    as (_ & _ & Hsame & _).
  pose proof (onClipboardSample_spec
                (mkConn [] (lit "remote") (lit "local") false) (lit "new"))
    as (_ & _ & _ & Hemit & _).
  pose proof (onClipboardSample_spec
                (mkConn [] (lit "remote") (lit "local") false) (lit "local"))
    as (_ & _ & _ & _ & Hkept).
  split; [exact (Hflag eq_refl)|].
  split; [apply Hsame; [reflexivity | right; right; right; reflexivity]|].
  split; [apply Hemit; intros [H|[H|[H|H]]]; discriminate H|].
  apply Hkept. reflexivity.
Defined.

(** C6. The callback run when a clipboard write succeeds records the body
    as the last text received and sets [skipNextCheck].  From there the
    next poll tick sends nothing (the flag), the tick after it, on the
    same clipboard text, sends nothing either (the text equals the last
    one received), and a later tick on a text that is not empty and differs
    from the last text sent and from the last one received sends it. *)
Theorem loop_suppression (st : conn) (v w : jsstring) :
  w <> [] -> w <> lastClipboardContent st -> w <> v ->
  let st1 := onMessageReceived st v in
  let st2 := fst (onClipboardSample st1 v) in
  let st3 := fst (onClipboardSample st2 v) in
  lastClientContent st1 = v /\ skipNextCheck st1 = true
  /\ lastClipboardContent st1 = lastClipboardContent st
  /\ snd (onClipboardSample st1 v) = Suppress
  /\ snd (onClipboardSample st2 v) = Suppress
  /\ w <> lastClipboardContent st3 /\ w <> lastClientContent st3
  /\ snd (onClipboardSample st3 w) = Emit w.
Proof.
  intros Hw1 Hw2 Hw3. cbv zeta.
  destruct st as [b lc lb sk]. cbn [lastClipboardContent] in Hw2.
  unfold onMessageReceived, write_fulfilled.
  cbn [buffer lastClientContent lastClipboardContent skipNextCheck].
  rewrite onClipboardSample_flag by reflexivity.
  cbn [fst snd buffer lastClientContent lastClipboardContent skipNextCheck].
  rewrite onClipboardSample_compare by reflexivity.
  rewrite poll_compare_suppress by (right; right; reflexivity).
  cbn [fst snd buffer lastClientContent lastClipboardContent skipNextCheck].
  rewrite onClipboardSample_compare by reflexivity.
  rewrite poll_compare_emit by assumption.
  repeat split; auto.
Qed.

Lemma loop_suppression_witness :
  let st1 := onMessageReceived initial (lit "hello") in
  let st2 := fst (onClipboardSample st1 (lit "hello")) in
  let st3 := fst (onClipboardSample st2 (lit "hello")) in
  snd (onClipboardSample st1 (lit "hello")) = Suppress
  /\ snd (onClipboardSample st2 (lit "hello")) = Suppress
  /\ snd (onClipboardSample st3 (lit "world")) = Emit (lit "world").
Proof.
  pose proof (loop_suppression initial (lit "hello") (lit "world"))
    as H.
  cbv zeta in H.
  destruct H as (_ & _ & _ & H1 & H2 & _ & _ & H3);
    [discriminate | discriminate | discriminate |].
  exact (conj H1 (conj H2 H3)).
Defined.

(** ** Clipboard writes and the guard *)

(** C7, as the spec states it, fails: the guard is not touched by the read
    path, and a clipboard write that fails leaves it as it was, not as a
    successful write would. *)
Lemma guard_before_write_counterexample :
  let st1 := fst (on_data initial (encode (lit "x"))) in
  snd (on_data initial (encode (lit "x"))) = [lit "x"]
  /\ lastClientContent st1 = [] /\ skipNextCheck st1 = false
  /\ lastClientContent (settle st1 (lit "x") false)
     <> lastClientContent (settle st1 (lit "x") true)
  /\ skipNextCheck (settle st1 (lit "x") false)
     <> skipNextCheck (settle st1 (lit "x") true).
Proof. vm_compute. repeat split; discriminate. Qed.

(** C7, amended. The read path starts the clipboard write of every body
    it extracts and leaves the guard as it was; the guard is updated by
    the callback of a write that succeeds (last text received := body,
    [skipNextCheck] := true); a write that fails is only logged and
    changes nothing. *)
Theorem guard_updated_on_write_success
        (st : conn) (data : bytes) (body : jsstring) :
  let st1 := fst (on_data st data) in
  (lastClientContent st1 = lastClientContent st
   /\ lastClipboardContent st1 = lastClipboardContent st
   /\ skipNextCheck st1 = skipNextCheck st)
  /\ settle st1 body true
     = mkConn (buffer st1) body (lastClipboardContent st) true
  /\ settle st1 body false = st1.
Proof.
  cbv zeta. rewrite on_data_drain. unfold after_data. cbn [fst].
  repeat split.
Qed.

(** In the copy without TLS the last text received is recorded by the
    read itself; the bodies and the buffer are those of [on_data]. *)
Lemma on_data_plain_spec (st : conn) (data : bytes) :
  snd (on_data_plain st data) = snd (on_data st data)
  /\ buffer (fst (on_data_plain st data)) = buffer (fst (on_data st data))
  /\ lastClientContent (fst (on_data_plain st data))
     = last (snd (on_data st data)) (lastClientContent st).
Proof.
  unfold on_data_plain, on_data, after_data.
  destruct (drain (buffer st ++ toString data)) as [bodies b'].
  repeat split.
Qed.

(** ** The second delimiter *)

(** C4, as the spec states it, fails: a body that holds [\r\n\r\n] is
    delivered from a [\r\n\r\n] frame and never from a [\n\n] frame, whose
    header is taken to reach up to the [\r\n\r\n] inside the body. *)
Lemma delimiter_fallback_counterexample :
  let s := lit "a" ++ CRLFCRLF ++ lit "b" in
  on_data initial (encode s) = (initial, [s])
  /\ on_data initial (Buffer_from (message_lf s))
     = (mkConn (message_lf s) [] [] false, [])
  /\ snd (on_data initial (Buffer_from (message_lf s)))
     <> snd (on_data initial (encode s)).
Proof. vm_compute. repeat split; discriminate. Qed.

Lemma message_lf_split (s : jsstring) :
  message_lf s
  = ((content_length_key ++ number_to_string (byteLength s)) ++ LFLF) ++ s.
Proof. unfold message_lf. now rewrite <- !app_assoc. Qed.

Lemma message_lf_well_formed (s : jsstring) :
  well_formed (message_lf s) = well_formed s.
Proof.
  rewrite message_lf_split. apply well_formed_ascii_app.
  apply Forall_app. split.
  - eapply Forall_impl; [|apply header_units]. cbn beta. lia.
  - unfold LFLF, LF. repeat constructor; lia.
Qed.

Lemma drain_message_lf (s : jsstring) :
  well_formed s = true -> indexOf s CRLFCRLF = -1 ->
  drain (message_lf s) = ([s], []).
Proof.
  intros Hwf Hno. rewrite drain_unfold.
  rewrite str_length_pos
    by (unfold message_lf, content_length_key; cbn; discriminate).
  rewrite <- (app_nil_r (message_lf s)), tryExtractOne_message_lf;
    rewrite ?app_nil_r; try assumption.
  rewrite firstn_byteLength, skipn_byteLength. reflexivity.
Qed.

(** C4, amended. The decoder looks for [\r\n\r\n] first and for [\n\n]
    only when there is none; for every body that does not hold [\r\n\r\n],
    the frame with the [\n\n] delimiter is decoded to exactly the body the
    frame with [\r\n\r\n] gives. *)
Theorem delimiter_fallback (st : conn) (s : jsstring) :
  buffer st = [] -> well_formed s = true -> indexOf s CRLFCRLF = -1 ->
  (forall buf,
      find_delimiter buf
      = if indexOf buf CRLFCRLF =? -1 then (indexOf buf LFLF, 2)
        else (indexOf buf CRLFCRLF, 4))
  /\ on_data st (Buffer_from (message_lf s)) = (st, [s])
  /\ on_data st (Buffer_from (message_lf s)) = on_data st (encode s).
Proof.
  intros Hb Hwf Hno.
  assert (Hlf : on_data st (Buffer_from (message_lf s)) = (st, [s])).
  { unfold on_data, Buffer_from.
    rewrite Hb, toString_utf8_encode by now rewrite message_lf_well_formed.
    cbn [app]. rewrite drain_message_lf by assumption.
    destruct st as [b lc lb sk]. cbn [buffer] in Hb. now subst b. }
  split; [reflexivity|]. split; [exact Hlf|].
  rewrite Hlf. symmetry. unfold on_data.
  rewrite Hb, toString_encode by assumption. cbn [app].
  rewrite drain_message by assumption.
  destruct st as [b lc lb sk]. cbn [buffer] in Hb. now subst b.
Qed.

Lemma delimiter_fallback_witness :
  let s := [0x68; 0xE9; LF; LF; CR; LF; 0x21] in
  on_data initial (Buffer_from (message_lf s)) = (initial, [s])
  /\ on_data initial (Buffer_from (message_lf s)) = on_data initial (encode s).
Proof.
  apply (delimiter_fallback initial [0x68; 0xE9; LF; LF; CR; LF; 0x21]);
    reflexivity.
Defined.

(** ** Several frames in one read *)

Lemma well_formed_ascii (a : jsstring) : is_ascii a -> well_formed a = true.
Proof.
  intros Ha. rewrite <- (app_nil_r a). now rewrite well_formed_ascii_app.
Qed.

Lemma toString_encode_app (s : jsstring) (rest : bytes) :
  well_formed s = true ->
  toString (encode s ++ rest) = message s ++ toString rest.
Proof.
  intros Hwf. unfold encode, Buffer_from.
  apply toString_utf8_encode_app. now rewrite message_well_formed.
Qed.

(** Two frames received together, the body of the first one ASCII: both
    bodies are delivered, in order, and the buffer is left empty. *)
Lemma two_frames_ascii (st : conn) (a b : jsstring) :
  buffer st = [] -> is_ascii a -> well_formed b = true ->
  on_data st (encode a ++ encode b) = (st, [a; b]).
Proof.
  intros Hb Ha Hwf. unfold on_data.
  rewrite Hb, toString_encode_app by now apply well_formed_ascii.
  rewrite toString_encode by assumption. cbn [app].
  rewrite drain_unfold, str_length_pos
    by (intros H; apply app_eq_nil in H as [H _]; revert H;
        apply message_nonempty).
  rewrite tryExtractOne_message by now apply well_formed_ascii.
  rewrite byteLength_ascii by assumption. unfold str_length.
  rewrite Nat2Z.id, firstn_app, firstn_all, skipn_app, skipn_all, Nat.sub_diag.
  cbn [firstn skipn app]. rewrite app_nil_r, drain_message by assumption.
  destruct st as [buf lc lb sk]. cbn [buffer] in Hb. now subst buf.
Qed.

(** C2 at a first body with a two-byte character.  The frame of [é]
    announces two bytes; the receiver takes two code units, [é] and the
    [C] of the next header, as the body, and the rest, a header that no
    longer matches, is discarded: the second body is never delivered. *)
Theorem two_frames_multibyte :
  let a := [0xE9] in
  let b := lit "b" in
  tryExtractOne (message a ++ message b)
  = Message [0xE9; 0x43] (lit "ontent-Length: 1" ++ CRLFCRLF ++ b)
  /\ tryExtractOne (lit "ontent-Length: 1" ++ CRLFCRLF ++ b) = Malformed
  /\ on_data initial (encode a ++ encode b) = (initial, [[0xE9; 0x43]]).
Proof. vm_compute. repeat split. Qed.

(** ** A frame in several reads *)

(** C3 at a body with a two-byte character, the frame cut between the two
    bytes.  Each chunk is decoded on its own: the first read ends in
    U+FFFD, three bytes when counted again, so the frame seems complete
    and U+FFFD is delivered as the body; the second read leaves another
    U+FFFD in the buffer.  The body [é] is never delivered. *)
Theorem split_inside_character :
  let s := [0xE9] in
  let chunks := [firstn 22 (encode s); skipn 22 (encode s)] in
  concat chunks = encode s
  /\ on_data initial (firstn 22 (encode s)) = (initial, [[REPLACEMENT]])
  /\ feed initial chunks = (mkConn [REPLACEMENT] [] [] false, [[REPLACEMENT]]).
Proof. vm_compute. repeat split. Qed.

(** What does hold for a frame that arrives in pieces: when the body is
    ASCII no cut can fall inside a character, and the body is delivered
    once, by the read that completes the frame. *)

Lemma toString_ascii (a : bytes) : is_ascii a -> toString a = a.
Proof.
  induction 1 as [|u a Hu _ IH]; [reflexivity|].
  rewrite decode_one_byte by lia. now rewrite IH.
Qed.

Lemma indexOf_unit_absent (c : Z) (p s : jsstring) :
  Forall (fun u => u <> c) s -> indexOf s (c :: p) = -1.
Proof.
  intros Hs. unfold indexOf. rewrite <- (app_nil_r s).
  now rewrite indexOf_from_skip.
Qed.

Lemma tryExtractOne_no_delimiter (buf : jsstring) :
  indexOf buf CRLFCRLF = -1 -> indexOf buf LFLF = -1 ->
  tryExtractOne buf = Incomplete.
Proof.
  intros H4 H2. unfold tryExtractOne, find_delimiter. now rewrite H4, H2.
Qed.

(** A turn that finds the delimiter after a header carrying the length
    [n], with fewer than [n] bytes of content behind it. *)
Lemma tryExtractOne_waiting (buf hdr delim content ds : jsstring) (n : Z) :
  buf = hdr ++ delim ++ content ->
  find_delimiter buf = (str_length hdr, str_length delim) ->
  match_content_length hdr = Some ds ->
  parseInt ds = n -> byteLength content < n ->
  tryExtractOne buf = Incomplete.
Proof.
  intros -> Hfind Hmatch Hparse Hn. rewrite (tryExtractOne_eq _ _ _ Hfind).
  unfold str_length at 1.
  destruct (Z.eqb_spec (Z.of_nat (length hdr)) (-1)); [lia|].
  rewrite slice_prefix by (unfold str_length; lia).
  rewrite slice_suffix by (unfold str_length; lia).
  unfold str_length.
  rewrite Nat2Z.id, firstn_app, firstn_all, Nat.sub_diag, firstn_O, app_nil_r.
  rewrite Hmatch, Hparse.
  replace (Z.to_nat (Z.of_nat (length hdr) + Z.of_nat (length delim)))
    with (length hdr + length delim)%nat by lia.
  rewrite <- length_app, app_assoc, skipn_app, skipn_all, Nat.sub_diag.
  cbn [app skipn].
  destruct (Z.ltb_spec (byteLength content) n); [reflexivity | lia].
Qed.

Lemma Forall_firstn {A} (P : A -> Prop) (n : nat) (l : list A) :
  Forall P l -> Forall P (firstn n l).
Proof.
  intros H. rewrite <- (firstn_skipn n l) in H. now apply Forall_app in H.
Qed.

(** A proper prefix of the frame of an ASCII body is an incomplete
    frame. *)
Lemma tryExtractOne_proper_prefix (s p q : jsstring) :
  is_ascii s -> p ++ q = message s -> q <> [] ->
  tryExtractOne p = Incomplete.
Proof.
  intros Hs Hpq Hq.
  set (hdr := content_length_key ++ number_to_string (byteLength s)).
  assert (Hm : message s = hdr ++ CRLFCRLF ++ s)
    by (unfold message, hdr; now rewrite <- app_assoc).
  assert (Hp : p = firstn (length p) (hdr ++ CRLFCRLF ++ s)).
  { rewrite <- Hm, <- Hpq, firstn_app, firstn_all, Nat.sub_diag.
    cbn [firstn]. now rewrite app_nil_r. }
  assert (Hlen : (length p < length hdr + 4 + length s)%nat).
  { apply (f_equal (@length Z)) in Hpq.
    rewrite Hm, !length_app in Hpq. cbn [length CRLFCRLF] in Hpq.
    destruct q; [contradiction | cbn [length] in Hpq; lia]. }
  pose proof (header_no_cr (byteLength s)) as Hcr.
  pose proof (header_no_lf (byteLength s)) as Hlf.
  assert (Hmatch : match_content_length hdr
                   = Some (number_to_string (byteLength s))).
  { apply match_content_length_key;
      [apply number_to_string_nonempty | apply number_to_string_digits]. }
  fold hdr in Hcr, Hlf. clearbody hdr.
  rewrite firstn_app in Hp.
  destruct (Nat.le_gt_cases (length p) (length hdr)) as [Hle|Hgt].
  - (* inside the header *)
    replace (length p - length hdr)%nat with 0%nat in Hp by lia.
    cbn [firstn] in Hp. rewrite app_nil_r in Hp.
    apply tryExtractOne_no_delimiter; rewrite Hp;
      apply indexOf_unit_absent, Forall_firstn; assumption.
  - rewrite firstn_all2 in Hp by lia.
    remember (length p - length hdr)%nat as j eqn:Hj.
    destruct (Nat.lt_ge_cases j 4) as [Hj4|Hj4].
    + (* inside the delimiter *)
      apply tryExtractOne_no_delimiter; rewrite Hp;
        [apply (indexOf_absent CR [LF; CR; LF])
        |apply (indexOf_absent LF [LF])];
        try assumption;
        destruct j as [|[|[|[|j]]]]; try lia; reflexivity.
    + (* inside the body *)
      replace j with (4 + (j - 4))%nat in Hp by lia.
      change (firstn (4 + (j - 4)) (CRLFCRLF ++ s))
        with (CRLFCRLF ++ firstn (j - 4) s) in Hp.
      rewrite Hp.
      apply (tryExtractOne_waiting
               _ hdr CRLFCRLF (firstn (j - 4) s)
               (number_to_string (byteLength s)) (byteLength s)).
      * reflexivity.
      * now apply find_delimiter_crlf.
      * exact Hmatch.
      * apply parseInt_number_to_string, byteLength_nonneg.
      * rewrite !byteLength_ascii by (try apply Forall_firstn; assumption).
        unfold str_length. rewrite length_firstn. lia.
Qed.

Lemma drain_proper_prefix (s p q : jsstring) :
  is_ascii s -> p ++ q = message s -> q <> [] -> drain p = ([], p).
Proof.
  intros Hs Hpq Hq. rewrite drain_unfold.
  rewrite (tryExtractOne_proper_prefix s p q) by assumption.
  now destruct (str_length p >? 0).
Qed.

Lemma with_buffer_same (st : conn) : after_data st [] (buffer st) = (st, []).
Proof. now destruct st. Qed.

(** Reads that bring nothing, on an empty buffer. *)
Lemma feed_nothing (st : conn) (chunks : list bytes) :
  buffer st = [] -> concat chunks = [] -> feed st chunks = (st, []).
Proof.
  intros Hb. revert st Hb.
  induction chunks as [|c cs IH]; intros st Hb Hc; [reflexivity|].
  cbn [concat] in Hc. apply app_eq_nil in Hc as [-> Hcs].
  cbn [feed]. rewrite on_data_drain, Hb. cbn [app toString decode_loop].
  change (0 =? 0) with true. cbv iota. rewrite drain_nil. cbn [fst snd].
  rewrite <- Hb, with_buffer_same, IH by assumption. reflexivity.
Qed.

Lemma message_ascii (s : jsstring) : is_ascii s -> is_ascii (message s).
Proof.
  intros Hs. rewrite message_split. apply Forall_app.
  split; [apply message_prefix_ascii | exact Hs].
Qed.

(** The frame of an ASCII body, cut into chunks in any way and read one
    chunk at a time after the proper prefix [p] already in the buffer: the
    body is delivered exactly once, by the read that completes the frame,
    and the buffer ends empty. *)
Lemma feed_from_prefix (s : jsstring) (chunks : list bytes) :
  is_ascii s ->
  forall (st : conn) (p : jsstring),
    buffer st = p -> p ++ concat chunks = message s -> p <> message s ->
    feed st chunks = after_data st [s] [].
Proof.
  intros Hs. induction chunks as [|c cs IH]; intros st p Hb Hp Hne.
  - cbn [concat] in Hp. rewrite app_nil_r in Hp. contradiction.
  - cbn [concat] in Hp.
    assert (Hc : is_ascii c).
    { pose proof (message_ascii s Hs) as Hm. rewrite <- Hp in Hm.
      apply Forall_app in Hm as [_ Hm]. now apply Forall_app in Hm as [Hm _]. }
    cbn [feed]. rewrite on_data_drain, Hb, toString_ascii by assumption.
    destruct (list_eq_dec Z.eq_dec (p ++ c) (message s)) as [Hfull|Hpart].
    + rewrite Hfull, drain_message by now apply well_formed_ascii.
      cbn [fst snd]. unfold after_data at 1.
      rewrite feed_nothing; [reflexivity | reflexivity |].
      rewrite app_assoc, Hfull in Hp.
      rewrite <- (app_nil_r (message s)) in Hp at 2.
      now apply app_inv_head in Hp.
    + rewrite (drain_proper_prefix s (p ++ c) (concat cs)); try assumption.
      * cbn [fst snd]. unfold after_data at 1.
        rewrite (IH _ (p ++ c)); [reflexivity | reflexivity | | exact Hpart].
        now rewrite <- app_assoc.
      * now rewrite <- app_assoc.
      * intros Hnil. rewrite Hnil, app_nil_r in Hp. contradiction.
Qed.

Lemma encode_ascii (s : jsstring) : is_ascii s -> encode s = message s.
Proof.
  intros Hs. unfold encode, Buffer_from.
  apply utf8_encode_ascii. now apply message_ascii.
Qed.

(** The incremental feed of the frame of an ASCII body. *)
Lemma incremental_feed_ascii (st : conn) (s : jsstring) (chunks : list bytes) :
  buffer st = [] -> is_ascii s -> concat chunks = encode s ->
  feed st chunks = (st, [s]).
Proof.
  intros Hb Hs Hc. rewrite encode_ascii in Hc by assumption.
  rewrite (feed_from_prefix s chunks Hs st []); try assumption.
  - unfold after_data. destruct st as [b lc lb sk].
    cbn [buffer lastClientContent lastClipboardContent skipNextCheck] in *.
    subst b. reflexivity.
  - intros H. symmetry in H. revert H. apply message_nonempty.
Qed.

(** ** What an extraction consumes *)








(** ** From one clipboard to the other *)

(** X21. Whatever a poll tick sends, for whatever bytes the clipboard
    command printed, a peer with an empty buffer that receives it in one read
    delivers exactly the text the sender compared and remembered. *)
Theorem emitted_frame_delivered
        (st st' peer : conn) (out wire : bytes) :
  checkAndSendClipboardData st (Some (toString out)) = (st', Some wire) ->
  buffer peer = [] ->
  on_data peer wire = (peer, [lastClipboardContent st'])
  /\ lastClipboardContent st' = trim (toString out).
Proof.
  intros Hsend Hb.
  assert (Hwf : well_formed (trim (toString out)) = true)
    by apply trim_well_formed, toString_well_formed.
  unfold checkAndSendClipboardData, poll_begin in Hsend.
  destruct (skipNextCheck st); [discriminate|].
  unfold poll_compare in Hsend.
  destruct (negb (str_eqb (trim (toString out)) [])
            && negb (str_eqb (trim (toString out)) (lastClipboardContent st))
            && negb (str_eqb (trim (toString out)) (lastClientContent st)));
    [|discriminate].
  unfold Emit in Hsend. injection Hsend as <- <-.
  cbn [lastClipboardContent]. split; [|reflexivity].
  rewrite on_data_drain, Hb, toString_encode by assumption. cbn [app].
  rewrite drain_message by assumption. cbn [fst snd].
  unfold after_data. destruct peer as [b lc lb sk].
  cbn [buffer lastClientContent lastClipboardContent skipNextCheck] in *.
  subst b. reflexivity.
Qed.

(** * Further properties *)

(** ** The frame on the wire *)

(** X1. Whatever the text, the bytes [checkAndSendClipboardData] writes
    are the ASCII header, the delimiter and the UTF-8 bytes of the text,
    and the number the header carries, read back as the receiver reads it,
    is the number of those bytes. *)
Theorem frame_on_the_wire (data : jsstring) :
  encode data
  = content_length_key ++ number_to_string (byteLength data) ++ CRLFCRLF
      ++ utf8_encode data
  /\ parseInt (number_to_string (byteLength data))
     = Z.of_nat (length (utf8_encode data))
  /\ match_content_length
       (content_length_key ++ number_to_string (byteLength data))
     = Some (number_to_string (byteLength data)).
Proof.
  split; [|split].
  - unfold encode, Buffer_from. rewrite message_split.
    rewrite utf8_encode_ascii_app by apply message_prefix_ascii.
    now rewrite <- !app_assoc.
  - apply parseInt_number_to_string, byteLength_nonneg.
  - apply match_content_length_key;
      [apply number_to_string_nonempty | apply number_to_string_digits].
Qed.

(** ** The buffer between reads *)

Lemma drain_settled (buf : jsstring) :
  drain (snd (drain buf)) = ([], snd (drain buf))
  /\ (length (snd (drain buf)) <= length buf)%nat.
Proof.
  remember (length buf) as n eqn:Hn. revert buf Hn.
  induction n as [n IH] using (well_founded_induction Wf_nat.lt_wf).
  intros buf Hn. rewrite (drain_unfold buf).
  destruct (str_length buf >? 0) eqn:Hlen.
  - destruct (tryExtractOne buf) as [| |body rest] eqn:Hx.
    + cbn [snd]. split; [|lia]. now rewrite drain_unfold, Hlen, Hx.
    + cbn [snd]. split; [reflexivity | cbn; lia].
    + pose proof (tryExtractOne_shrinks _ _ _ Hx) as Hs.
      destruct (IH (length rest) ltac:(lia) rest eq_refl) as [H1 H2].
      destruct (drain rest) as [bodies b'] eqn:Hd. cbn [snd] in *.
      split; [exact H1 | lia].
  - cbn [snd]. split; [|lia]. now rewrite drain_unfold, Hlen.
Qed.

(** X2. After any read event the buffer holds no frame that could still be
    extracted: a read that brings no byte delivers nothing and changes
    nothing, and the buffer never grows beyond what was received. *)
Theorem buffer_settled_after_read (st : conn) (data : bytes) :
  let st1 := fst (on_data st data) in
  on_data st1 [] = (st1, [])
  /\ (length (buffer st1) <= length (buffer st ++ toString data))%nat
  /\ (buffer st1 = [] \/ tryExtractOne (buffer st1) = Incomplete).
Proof.
  cbv zeta. rewrite (on_data_drain st data). unfold after_data at 1 2 3 4 5.
  cbn [fst buffer].
  destruct (drain_settled (buffer st ++ toString data)) as [Hd Hl].
  split; [|split; [exact Hl|]].
  - rewrite on_data_drain. cbn [buffer toString decode_loop].
    change (0 =? 0) with true. cbv iota. rewrite app_nil_r, Hd.
    reflexivity.
  - rewrite drain_unfold in Hd.
    destruct (snd (drain (buffer st ++ toString data))) as [|c t] eqn:Hb;
      [now left | right].
    rewrite str_length_pos in Hd by discriminate.
    destruct (tryExtractOne (c :: t)) as [| |body rest]; [reflexivity| |].
    + discriminate.
    + destruct (drain rest). discriminate.
Qed.


(** ** A stream of frames *)

(** An ASCII frame at the head of the buffer is extracted and the loop
    goes on with what follows it. *)
Lemma drain_message_app (a rest : jsstring) :
  is_ascii a ->
  drain (message a ++ rest) = (a :: fst (drain rest), snd (drain rest)).
Proof.
  intros Ha. rewrite drain_unfold, str_length_pos
    by (intros H; apply app_eq_nil in H as [H _]; revert H;
        apply message_nonempty).
  rewrite tryExtractOne_message by now apply well_formed_ascii.
  rewrite byteLength_ascii by assumption. unfold str_length.
  rewrite Nat2Z.id, firstn_app, firstn_all, skipn_app, skipn_all, Nat.sub_diag.
  cbn [firstn skipn app]. rewrite app_nil_r. now destruct (drain rest).
Qed.

(** The loop on any prefix [p] of a stream of ASCII frames: the bodies of
    the frames that are complete in [p], and the incomplete frame left. *)
Lemma drain_stream (bodies : list jsstring) :
  Forall is_ascii bodies ->
  forall p q, p ++ q = stream bodies ->
  exists done todo r,
    bodies = done ++ todo /\ drain p = (done, r)
    /\ r ++ q = stream todo /\ drain r = ([], r).
Proof.
  induction 1 as [|a bs Ha Hbs IH]; intros p q Hpq.
  - apply app_eq_nil in Hpq as [-> ->]. now exists [], [], [].
  - change (stream (a :: bs)) with (message a ++ stream bs) in Hpq.
    assert (Hcomplete : forall p', p = message a ++ p' -> p' ++ q = stream bs ->
              exists done todo r,
                a :: bs = done ++ todo /\ drain p = (done, r)
                /\ r ++ q = stream todo /\ drain r = ([], r)).
    { intros p' Hp Hq.
      destruct (IH p' q Hq) as (done & todo & r & Hb & Hd & Hr & Hrr).
      exists (a :: done), todo, r. repeat split; try assumption.
      - cbn [app]. now f_equal.
      - rewrite Hp, drain_message_app, Hd by assumption. reflexivity. }
    destruct (app_eq_app _ _ _ _ Hpq) as [l [[Hp Hs]|[Hm Hq]]].
    + (* the first frame is complete *)
      now apply (Hcomplete l).
    + destruct l as [|u l].
      * apply (Hcomplete []).
        -- rewrite app_nil_r in *. now symmetry.
        -- cbn [app] in *. now symmetry.
      * (* the first frame is not complete *)
        exists [], (a :: bs), p.
        assert (Hd : drain p = ([], p)).
        { apply (drain_proper_prefix a p (u :: l)); [assumption | | discriminate].
          now symmetry. }
        repeat split; assumption.
Qed.

Lemma stream_ascii (bodies : list jsstring) :
  Forall is_ascii bodies -> is_ascii (stream bodies).
Proof.
  induction 1 as [|a bs Ha _ IH]; [constructor|].
  change (stream (a :: bs)) with (message a ++ stream bs).
  apply Forall_app. split; [now apply message_ascii | exact IH].
Qed.

Lemma stream_nil_inv (bodies : list jsstring) : stream bodies = [] -> bodies = [].
Proof.
  destruct bodies as [|a bs]; [reflexivity|].
  change (stream (a :: bs)) with (message a ++ stream bs).
  intros H. apply app_eq_nil in H as [H _]. now apply message_nonempty in H.
Qed.

(** Chunks read one at a time on top of a buffer that holds an incomplete
    frame, the whole being a stream of ASCII frames. *)
Lemma feed_stream (chunks : list bytes) :
  forall (bodies : list jsstring) (st : conn),
    Forall is_ascii bodies ->
    buffer st ++ concat chunks = stream bodies ->
    drain (buffer st) = ([], buffer st) ->
    feed st chunks = after_data st bodies [].
Proof.
  induction chunks as [|c cs IH]; intros bodies st Hb Hs Hd.
  - cbn [concat] in Hs. rewrite app_nil_r in Hs.
    destruct (drain_stream bodies Hb (buffer st) [])
      as (done & todo & r & Hsplit & Hdr & Hr & _);
      [now rewrite app_nil_r|].
    rewrite Hd in Hdr. injection Hdr as <- <-. cbn [app] in Hsplit. subst todo.
    (* the buffer is the whole stream and nothing can be extracted *)
    destruct bodies as [|a bs].
    + cbn [feed]. unfold after_data. cbn [stream map concat] in Hs.
      destruct st as [b lc lb sk]. cbn [buffer] in *. subst b. reflexivity.
    + exfalso. change (stream (a :: bs)) with (message a ++ stream bs) in Hs.
      inversion Hb as [|? ? Ha Hbs]; subst.
      rewrite Hs, drain_message_app in Hd by assumption. discriminate.
  - cbn [concat] in Hs.
    assert (Hc : is_ascii c).
    { pose proof (stream_ascii bodies Hb) as Hm. rewrite <- Hs in Hm.
      apply Forall_app in Hm as [_ Hm]. now apply Forall_app in Hm as [Hm _]. }
    cbn [feed]. rewrite on_data_drain, toString_ascii by assumption.
    destruct (drain_stream bodies Hb (buffer st ++ c) (concat cs))
      as (done & todo & r & Hsplit & Hdr & Hr & Hrr);
      [now rewrite <- app_assoc|].
    rewrite Hdr. cbn [fst snd]. unfold after_data at 1.
    assert (Htodo : Forall is_ascii todo).
    { rewrite Hsplit in Hb. now apply Forall_app in Hb as [_ Hb]. }
    rewrite (IH todo); [| exact Htodo | exact Hr | exact Hrr].
    unfold after_data. cbn [lastClientContent lastClipboardContent skipNextCheck].
    now rewrite Hsplit.
Qed.

(** X3. A stream of frames with ASCII bodies, cut into chunks in any way
    (frames split, frames merged, empty chunks) and read one chunk at a
    time on a connection whose buffer is empty: every body is delivered
    once, in order, and the buffer ends empty. *)
Theorem stream_reassembly
        (st : conn) (bodies : list jsstring) (chunks : list bytes) :
  buffer st = [] -> Forall is_ascii bodies ->
  concat chunks = concat (map encode bodies) ->
  feed st chunks = (st, bodies).
Proof.
  intros Hb Ha Hc.
  assert (Hs : concat (map encode bodies) = stream bodies).
  { unfold stream. f_equal. apply map_ext_Forall.
    eapply Forall_impl; [|exact Ha]. intros a. apply encode_ascii. }
  rewrite Hs in Hc.
  rewrite (feed_stream chunks bodies st Ha).
  - unfold after_data. destruct st as [b lc lb sk].
    cbn [buffer lastClientContent lastClipboardContent skipNextCheck] in *.
    subst b. reflexivity.
  - rewrite Hb. exact Hc.
  - rewrite Hb. apply drain_nil.
Qed.


(** ** Headers the decoder accepts *)

Lemma canonicalize_printable (u : Z) :
  32 <= canonicalize u < 0x80 -> 32 <= u < 0x80.
Proof. unfold canonicalize. cmp_cases; cbn [andb]; lia. Qed.

Lemma starts_with_ci_fold (pat key s : jsstring) :
  map canonicalize key = map canonicalize pat ->
  starts_with_ci pat (key ++ s) = true.
Proof.
  revert key. induction pat as [|p pat IH]; intros key Hk; [reflexivity|].
  destruct key as [|k key]; [discriminate|]. cbn [map] in Hk.
  injection Hk as Hk1 Hk2. cbn [app starts_with_ci].
  rewrite Hk1, Z.eqb_refl. now apply IH.
Qed.

Lemma same_key_units (key : jsstring) :
  same_key key -> Forall (fun u => 32 <= u < 0x80) key.
Proof.
  unfold same_key. intros Hk.
  assert (H : Forall (fun u => 32 <= u < 0x80) (map canonicalize key)).
  { rewrite Hk. unfold content_length_key. cbn. repeat constructor; lia. }
  apply Forall_map in H. eapply Forall_impl; [|exact H].
  intros u. apply canonicalize_printable.
Qed.

Lemma same_key_length (key : jsstring) :
  same_key key -> length key = length content_length_key.
Proof.
  intros Hk. apply (f_equal (@length Z)) in Hk. now rewrite !length_map in Hk.
Qed.

Lemma match_content_length_same_key (key ds : jsstring) :
  same_key key -> ds <> [] -> Forall (fun u => is_digit u = true) ds ->
  match_content_length (key ++ ds) = Some ds.
Proof.
  intros Hk Hne Hds.
  assert (H : match_here (key ++ ds) = Some ds).
  { unfold match_here. rewrite starts_with_ci_fold by exact Hk.
    rewrite <- (same_key_length key Hk).
    rewrite skipn_app, skipn_all, Nat.sub_diag. cbn [app skipn].
    rewrite <- (app_nil_r ds) at 1. rewrite take_digits_all by easy.
    destruct ds as [|d ds']; [now elim Hne | reflexivity]. }
  destruct (key ++ ds) eqn:E; cbn [match_content_length]; now rewrite H.
Qed.

(** X4. The key of the header is read without regard to the case of its
    letters: a frame whose key is [Content-Length: ] in any mix of upper
    and lower case, received as one buffer, delivers its body like the
    frame the program itself sends. *)
Theorem header_key_case_insensitive (st : conn) (key s : jsstring) :
  same_key key -> buffer st = [] -> well_formed s = true ->
  on_data st (Buffer_from (key ++ number_to_string (byteLength s)
                               ++ CRLFCRLF ++ s))
  = (st, [s]).
Proof.
  intros Hk Hb Hwf.
  set (ds := number_to_string (byteLength s)).
  assert (Hunits : Forall (fun u => 32 <= u < 0x80) (key ++ ds)).
  { apply Forall_app. split; [now apply same_key_units|].
    eapply Forall_impl; [|apply number_to_string_digits].
    intros u Hu. apply digit_range in Hu. lia. }
  assert (Hascii : is_ascii ((key ++ ds) ++ CRLFCRLF)).
  { apply Forall_app. split.
    - eapply Forall_impl; [|exact Hunits]. cbn beta. lia.
    - unfold CRLFCRLF, CR, LF. repeat constructor; lia. }
  assert (Hframe : key ++ ds ++ CRLFCRLF ++ s = ((key ++ ds) ++ CRLFCRLF) ++ s)
    by now rewrite <- !app_assoc.
  rewrite on_data_drain, Hb. unfold Buffer_from. cbn [app].
  rewrite toString_utf8_encode
    by (rewrite Hframe, well_formed_ascii_app; assumption).
  assert (Hx : tryExtractOne (key ++ ds ++ CRLFCRLF ++ s) = Message s []).
  { rewrite <- (firstn_byteLength s) at 2.
    rewrite <- (skipn_byteLength s).
    apply (tryExtractOne_frame _ (key ++ ds) CRLFCRLF s ds).
    - now rewrite <- app_assoc.
    - rewrite app_assoc. apply find_delimiter_crlf.
      eapply Forall_impl; [|exact Hunits]. unfold CR. cbn beta. lia.
    - apply match_content_length_same_key; [exact Hk | |];
        [apply number_to_string_nonempty | apply number_to_string_digits].
    - apply parseInt_number_to_string, byteLength_nonneg.
    - pose proof (byteLength_nonneg s). lia. }
  rewrite drain_unfold, Hx, str_length_pos, drain_nil.
  - unfold after_data. cbn [fst snd]. destruct st as [b lc lb sk].
    cbn [buffer lastClientContent lastClipboardContent skipNextCheck] in *.
    subst b. reflexivity.
  - destruct key; [|discriminate].
    apply same_key_length in Hk. discriminate.
Qed.

Lemma header_key_case_insensitive_witness :
  on_data initial
          (Buffer_from (lit "content-LENGTH: " ++ lit "3" ++ CRLFCRLF
                            ++ [0x68; 0xE9]))
  = (initial, [[0x68; 0xE9]]).
Proof.
  apply (header_key_case_insensitive initial (lit "content-LENGTH: ")
                                     [0x68; 0xE9]); reflexivity.
Defined.

(** Units before the key that cannot start it are passed over. *)
Lemma match_content_length_skip (junk s : jsstring) :
  Forall (fun u => canonicalize u <> 67) junk ->
  match_content_length (junk ++ s) = match_content_length s.
Proof.
  induction 1 as [|u junk Hu _ IH]; [reflexivity|].
  cbn [app match_content_length].
  assert (H : match_here (u :: junk ++ s) = None).
  { unfold match_here, content_length_key. cbn [lit list_ascii_of_string map].
    cbn [starts_with_ci].
    change (canonicalize (Z.of_N (N_of_ascii "C"))) with 67.
    destruct (Z.eqb_spec 67 (canonicalize u)); [congruence | reflexivity]. }
  now rewrite H.
Qed.

(** X5. Units left in the buffer that hold no line break and no [C] or
    [c] do not stop the next frame: they are taken into its header, where
    the pattern is found behind them, and are dropped with it. *)
Theorem leftover_before_frame (st : conn) (s : jsstring) :
  Forall (fun u => u <> CR /\ u <> LF /\ canonicalize u <> 67) (buffer st) ->
  well_formed s = true ->
  on_data st (encode s) = after_data st [s] [].
Proof.
  intros Hjunk Hwf. set (junk := buffer st) in *.
  set (ds := number_to_string (byteLength s)).
  rewrite on_data_drain. fold junk. rewrite toString_encode by assumption.
  assert (Hx : tryExtractOne (junk ++ message s) = Message s []).
  { rewrite <- (firstn_byteLength s) at 2.
    rewrite <- (skipn_byteLength s).
    apply (tryExtractOne_frame _ (junk ++ content_length_key ++ ds)
                               CRLFCRLF s ds).
    - unfold message. now rewrite <- !app_assoc.
    - unfold message. rewrite (app_assoc content_length_key), app_assoc.
      apply find_delimiter_crlf. apply Forall_app. split.
      + eapply Forall_impl; [|exact Hjunk]. cbn beta. tauto.
      + apply header_no_cr.
    - rewrite match_content_length_skip
        by (eapply Forall_impl; [|exact Hjunk]; cbn beta; tauto).
      apply match_content_length_key;
        [apply number_to_string_nonempty | apply number_to_string_digits].
    - apply parseInt_number_to_string, byteLength_nonneg.
    - pose proof (byteLength_nonneg s). lia. }
  rewrite drain_unfold, Hx, str_length_pos, drain_nil; [reflexivity|].
  intros H. apply app_eq_nil in H as [_ H]. revert H. apply message_nonempty.
Qed.

Lemma leftover_before_frame_witness :
  on_data (mkConn (lit "tail of a longer body") [] [] false)
          (encode (lit "next"))
  = (initial, [lit "next"]).
Proof.
  apply (leftover_before_frame
           (mkConn (lit "tail of a longer body") [] [] false) (lit "next"));
    [|reflexivity].
  cbn. repeat constructor; unfold CR, LF, canonicalize; cbn; lia.
Defined.


(** ** The guard over runs of callbacks *)

Lemma on_data_guard (st : conn) (data : bytes) :
  lastClientContent (fst (on_data st data)) = lastClientContent st
  /\ lastClipboardContent (fst (on_data st data)) = lastClipboardContent st
  /\ skipNextCheck (fst (on_data st data)) = skipNextCheck st.
Proof. rewrite on_data_drain. unfold after_data. cbn. auto. Qed.

Lemma poll_begin_guard (st : conn) :
  lastClientContent (fst (poll_begin st)) = lastClientContent st
  /\ lastClipboardContent (fst (poll_begin st)) = lastClipboardContent st.
Proof. unfold poll_begin. destruct (skipNextCheck st); cbn; auto. Qed.

(** A tick is the timer callback and, when the flag was not set, the
    callback of the clipboard read. *)
Lemma tick_as_callbacks (st : conn) (read : option jsstring) :
  checkAndSendClipboardData st read
  = if skipNextCheck st then step st Timer
    else step (fst (step st Timer)) (ReadDone read).
Proof.
  unfold checkAndSendClipboardData, step, poll_begin.
  destruct (skipNextCheck st); [reflexivity|]. cbn [fst].
  now destruct read.
Qed.

(** X6. A text is never sent twice in a row: from a state whose last text
    sent is [v], no run of callbacks in which every clipboard read gives
    [v] writes anything to the socket, whatever is received and whatever
    becomes of the clipboard writes in between, and [v] stays the last
    text sent. *)
Theorem never_sent_twice (st : conn) (v : jsstring) (es : list event) :
  lastClipboardContent st = v -> Forall (reads v) es ->
  snd (run st es) = [] /\ lastClipboardContent (fst (run st es)) = v.
Proof.
  intros Hv Hes. revert st Hv.
  induction Hes as [|e es He _ IH]; intros st Hv; [now split|].
  cbn [run].
  assert (Hstep : snd (step st e) = None
                  /\ lastClipboardContent (fst (step st e)) = v).
  { destruct e as [data|body ok| |[stdout|]]; cbn [step fst snd].
    - split; [reflexivity|]. now rewrite (proj1 (proj2 (on_data_guard st data))).
    - split; [reflexivity|]. now destruct ok.
    - split; [reflexivity|]. now rewrite (proj2 (poll_begin_guard st)).
    - cbn [reads] in He. rewrite He.
      rewrite poll_compare_suppress by (right; left; now symmetry).
      now split.
    - now split. }
  destruct (step st e) as [st1 out]. cbn [fst snd] in Hstep.
  destruct Hstep as [-> Hv1].
  specialize (IH st1 Hv1). destruct (run st1 es) as [st2 outs].
  cbn [fst snd] in *. exact IH.
Qed.

Lemma never_sent_twice_witness :
  let st := fst (onClipboardSample initial (lit "copied")) in
  snd (run st [Timer; ReadDone (Some (lit " copied "));
               Data (encode (lit "remote")); Settled (lit "remote") true;
               Timer; Timer; ReadDone (Some (lit "copied"))])
  = [].
Proof.
  apply (never_sent_twice
           (fst (onClipboardSample initial (lit "copied"))) (lit "copied")).
  - reflexivity.
  - repeat constructor.
Defined.

Lemma no_echo_invariant (st : conn) (v : jsstring) (es : list event) :
  lastClientContent st = v ->
  Forall (reads v) es -> Forall (keeps_received v) es ->
  snd (run st es) = [] /\ lastClientContent (fst (run st es)) = v.
Proof.
  intros Hv Hes. revert st Hv.
  induction Hes as [|e es He _ IH]; intros st Hv Hk; [now split|].
  inversion Hk as [|? ? Hke Hkes]; subst. cbn [run].
  assert (Hstep : snd (step st e) = None
                  /\ lastClientContent (fst (step st e))
                     = lastClientContent st).
  { destruct e as [data|body ok| |[stdout|]]; cbn [step fst snd].
    - split; [reflexivity|]. now rewrite (proj1 (on_data_guard st data)).
    - split; [reflexivity|]. destruct ok; [|reflexivity].
      cbn [keeps_received] in Hke. now subst body.
    - split; [reflexivity|]. now rewrite (proj1 (poll_begin_guard st)).
    - cbn [reads] in He. rewrite He.
      rewrite poll_compare_suppress by (right; right; reflexivity).
      now split.
    - now split. }
  destruct (step st e) as [st1 out]. cbn [fst snd] in Hstep.
  destruct Hstep as [-> Hv1].
  specialize (IH st1 Hv1 Hkes). destruct (run st1 es) as [st2 outs].
  cbn [fst snd] in *. exact IH.
Qed.

(** X7. Echo prevention: a frame is received, its body [x] is written to
    the clipboard and the write succeeds; from then on no callback sends
    anything as long as the clipboard reads give [x] and no other text is
    written to the clipboard by a later frame. *)
Theorem echo_prevention (st : conn) (x : jsstring) (es : list event) :
  buffer st = [] -> well_formed x = true ->
  Forall (reads x) es -> Forall (keeps_received x) es ->
  snd (on_data st (encode x)) = [x]
  /\ snd (run st (Data (encode x) :: Settled x true :: es)) = [].
Proof.
  intros Hb Hwf Hr Hk.
  assert (Hd : on_data st (encode x) = (st, [x])).
  { rewrite on_data_drain, Hb, toString_encode by assumption. cbn [app].
    rewrite drain_message by assumption. unfold after_data. cbn [fst snd].
    destruct st as [b lc lb sk].
    cbn [buffer lastClientContent lastClipboardContent skipNextCheck] in *.
    subst b. reflexivity. }
  split; [now rewrite Hd|].
  cbn [run step]. rewrite Hd. cbn [fst settle].
  destruct (no_echo_invariant (write_fulfilled st x) x es eq_refl Hr Hk)
    as [Hout _].
  destruct (run (write_fulfilled st x) es) as [st2 outs].
  cbn [snd] in *. exact Hout.
Qed.

Lemma echo_prevention_witness :
  snd (run initial [Data (encode (lit "hello")); Settled (lit "hello") true;
                    Timer; Timer; ReadDone (Some (lit "hello"));
                    Timer; ReadDone (Some (lit "hello  "))])
  = [].
Proof.
  apply (echo_prevention initial (lit "hello")); try reflexivity;
    repeat constructor.
Defined.


(** X8. The tick that follows a successful clipboard write is skipped
    without the clipboard being read; a text the user copied in the
    meantime is not lost: the tick after it sends it. *)
Theorem skipped_tick_delays (st : conn) (w : jsstring) :
  skipNextCheck st = true ->
  w <> [] -> w <> lastClipboardContent st -> w <> lastClientContent st ->
  snd (poll_ticks 2 st w) = [Suppress; Emit w]
  /\ lastClipboardContent (fst (poll_ticks 2 st w)) = w.
Proof.
  intros Hskip H1 H2 H3. cbn [poll_ticks].
  rewrite onClipboardSample_flag by assumption.
  rewrite onClipboardSample_compare by reflexivity.
  rewrite poll_compare_emit by assumption. cbn. now split.
Qed.

Lemma skipped_tick_delays_witness :
  snd (poll_ticks 2 (onMessageReceived initial (lit "remote")) (lit "local"))
  = [Suppress; Emit (lit "local")].
Proof.
  apply (skipped_tick_delays (onMessageReceived initial (lit "remote"))
                             (lit "local"));
    [reflexivity | discriminate | discriminate | discriminate].
Defined.

(** X9. The guard learns of a received text only in the callback of its
    clipboard write.  A tick whose clipboard read settles after the frame
    was read and before that callback runs sends the received text back;
    with the two callbacks in the other order nothing is sent. *)
Theorem echo_window (st : conn) (x stdout : jsstring) :
  buffer st = [] -> skipNextCheck st = false -> well_formed x = true ->
  trim stdout = x ->
  x <> [] -> x <> lastClipboardContent st -> x <> lastClientContent st ->
  snd (run st [Data (encode x); Timer; ReadDone (Some stdout);
               Settled x true])
  = [encode x]
  /\ snd (run st [Data (encode x); Timer; Settled x true;
                  ReadDone (Some stdout)])
     = [].
Proof.
  intros Hb Hskip Hwf Htrim H1 H2 H3.
  assert (Hd : on_data st (encode x) = (st, [x])).
  { rewrite on_data_drain, Hb, toString_encode by assumption. cbn [app].
    rewrite drain_message by assumption. unfold after_data. cbn [fst snd].
    destruct st as [b lc lb sk].
    cbn [buffer lastClientContent lastClipboardContent skipNextCheck] in *.
    subst b. reflexivity. }
  assert (Hbegin : poll_begin st = (st, true))
    by (unfold poll_begin; now rewrite Hskip).
  split; cbn [run step]; rewrite Hd; cbn [fst]; rewrite Hbegin; cbn [fst];
    rewrite Htrim.
  - rewrite poll_compare_emit by assumption. reflexivity.
  - cbn [settle]. rewrite poll_compare_suppress; [reflexivity|].
    right. right. reflexivity.
Qed.

Lemma echo_window_witness :
  snd (run initial [Data (encode (lit "hi")); Timer;
                    ReadDone (Some (lit "hi")); Settled (lit "hi") true])
  = [encode (lit "hi")].
Proof.
  apply (echo_window initial (lit "hi") (lit "hi"));
    try reflexivity; discriminate.
Defined.

(** X10. The copy without TLS records the received text in the read
    itself: once a frame with body [x] has been read, a tick whose
    clipboard read gives [x] sends nothing, whenever that read settles and
    whatever became of the clipboard write. *)
Theorem plain_copy_no_window (st : conn) (x stdout : jsstring) :
  buffer st = [] -> well_formed x = true -> trim stdout = x ->
  let st1 := fst (on_data_plain st (encode x)) in
  snd (on_data_plain st (encode x)) = [x]
  /\ lastClientContent st1 = x
  /\ checkAndSendClipboardData_plain st1 (Some stdout) = (st1, Suppress).
Proof.
  intros Hb Hwf Htrim. cbv zeta. unfold on_data_plain.
  rewrite Hb, toString_encode by assumption. cbn [app].
  rewrite drain_message by assumption. cbn [fst snd last].
  repeat split. unfold checkAndSendClipboardData_plain. rewrite Htrim.
  apply poll_compare_suppress. right. right. reflexivity.
Qed.

Lemma plain_copy_no_window_witness :
  let st1 := fst (on_data_plain initial (encode (lit "hi"))) in
  checkAndSendClipboardData_plain st1 (Some (lit "hi ")) = (st1, Suppress).
Proof.
  apply (plain_copy_no_window initial (lit "hi") (lit "hi ")); reflexivity.
Defined.

(** ** What a tick sends *)

Lemma trimStart_head (s : jsstring) :
  match trimStart s with
  | [] => True
  | c :: _ => is_space c = false
  end.
Proof.
  induction s as [|c t IH]; [exact I|].
  cbn [trimStart]. destruct (is_space c) eqn:Hc; [exact IH | exact Hc].
Qed.

Lemma trim_last (s pre : jsstring) (c : Z) :
  trim s = pre ++ [c] -> is_space c = false.
Proof.
  unfold trim. intros H. apply (f_equal (@rev Z)) in H.
  rewrite rev_involutive, rev_app_distr in H. cbn [rev app] in H.
  pose proof (trimStart_head (rev (trimStart s))) as Hh.
  now rewrite H in Hh.
Qed.

Lemma trim_head (s t : jsstring) (c : Z) :
  trim s = c :: t -> is_space c = false.
Proof.
  unfold trim. intros H.
  destruct (trimStart_split (rev (trimStart s))) as (sp & Hsplit & _).
  apply (f_equal (@rev Z)) in Hsplit.
  rewrite rev_involutive, rev_app_distr, H in Hsplit.
  pose proof (trimStart_head s) as Hh. rewrite Hsplit in Hh. exact Hh.
Qed.

(** X11. Whatever the clipboard command prints, a tick that writes to the
    socket writes the frame of the trimmed text, which is then the last
    text sent: it is not empty and neither starts nor ends with white
    space or a line break. *)
Theorem sent_text_is_trimmed (st st' : conn) (stdout : jsstring) (wire : bytes) :
  checkAndSendClipboardData st (Some stdout) = (st', Some wire) ->
  wire = encode (trim stdout)
  /\ lastClipboardContent st' = trim stdout
  /\ trim stdout <> []
  /\ (forall c t, trim stdout = c :: t -> is_space c = false)
  /\ (forall pre c, trim stdout = pre ++ [c] -> is_space c = false).
Proof.
  intros Hsend.
  unfold checkAndSendClipboardData, poll_begin in Hsend.
  destruct (skipNextCheck st); [discriminate|].
  unfold poll_compare in Hsend.
  destruct (str_eqb (trim stdout) []) eqn:Hempty; [discriminate|].
  cbn [negb andb] in Hsend.
  destruct (negb (str_eqb (trim stdout) (lastClipboardContent st))
            && negb (str_eqb (trim stdout) (lastClientContent st)));
    [|discriminate].
  unfold Emit in Hsend. injection Hsend as <- <-.
  cbn [lastClipboardContent]. apply str_eqb_neq in Hempty.
  repeat split; try assumption.
  - intros c t. apply trim_head.
  - intros pre c. apply trim_last.
Qed.

Lemma sent_text_is_trimmed_witness :
  lastClipboardContent
    (fst (checkAndSendClipboardData initial (Some (lit "  two words" ++ [LF])))) = lit "two words".
Proof.
  destruct (sent_text_is_trimmed
              initial
              (fst (checkAndSendClipboardData initial (Some (lit "  two words" ++ [LF]))))
              (lit "  two words" ++ [LF]) (encode (lit "two words")) eq_refl)
    as (_ & H & _).
  exact H.
Defined.


(** ** The command that writes the clipboard *)

Lemma replace_unit_app (c : Z) (r a b : jsstring) :
  replace_unit c r (a ++ b) = replace_unit c r a ++ replace_unit c r b.
Proof. apply flat_map_app. Qed.

Lemma replace_unit_absent (c : Z) (r s : jsstring) :
  Forall (fun u => u <> c) s -> replace_unit c r s = s.
Proof.
  induction 1 as [|u s Hu _ IH]; [reflexivity|].
  unfold replace_unit in *. cbn [flat_map].
  destruct (Z.eqb_spec u c); [contradiction|]. cbn [app]. now rewrite IH.
Qed.

Lemma escape_app (a b : jsstring) : escape (a ++ b) = escape a ++ escape b.
Proof. unfold escape. now rewrite !replace_unit_app. Qed.

Lemma escape_cons (u : Z) (t : jsstring) :
  escape (u :: t)
  = (if u =? QUOTE then [BACKSLASH; QUOTE]
     else if u =? LF then [BACKSLASH; 110] else [u]) ++ escape t.
Proof.
  change (u :: t) with ([u] ++ t). rewrite escape_app. f_equal.
  unfold escape, replace_unit. cbn [flat_map app].
  destruct (Z.eqb_spec u QUOTE); [reflexivity|]. cbn [flat_map app].
  destruct (Z.eqb_spec u LF); reflexivity.
Qed.

(** X12. A body without a double quote and without a line feed goes into
    the command as it is, between the two quotes: a backslash, a dollar
    sign or a backquote of the body is not escaped. *)
Theorem write_command_verbatim (isWindows : bool) (body : jsstring) :
  Forall (fun u => u <> QUOTE /\ u <> LF) body ->
  write_command isWindows body
  = lit "printf %s " ++ [QUOTE] ++ body ++ [QUOTE] ++ lit " | "
        ++ clipboardWriteCommand isWindows.
Proof.
  intros Hb. unfold write_command, escape.
  rewrite (replace_unit_absent QUOTE)
    by (eapply Forall_impl; [|exact Hb]; cbn beta; tauto).
  rewrite (replace_unit_absent LF)
    by (eapply Forall_impl; [|exact Hb]; cbn beta; tauto).
  reflexivity.
Qed.

Lemma write_command_verbatim_witness :
  write_command false [BACKSLASH; 36; 40; 105; 100; 41; 96]
  = lit "printf %s " ++ [QUOTE] ++ [BACKSLASH; 36; 40; 105; 100; 41; 96]
        ++ [QUOTE] ++ lit " | pbcopy".
Proof.
  apply (write_command_verbatim false [BACKSLASH; 36; 40; 105; 100; 41; 96]).
  repeat constructor; discriminate.
Defined.

(** X13. In the escaped body no line feed is left, and every double quote
    stands right behind a backslash. *)
Theorem escape_quotes_and_line_feeds (body : jsstring) :
  Forall (fun u => u <> LF) (escape body)
  /\ forall pre post,
      escape body = pre ++ QUOTE :: post -> exists pre', pre = pre' ++ [BACKSLASH].
Proof.
  split.
  - induction body as [|u t IH]; [constructor|].
    rewrite escape_cons. apply Forall_app. split; [|exact IH].
    destruct (Z.eqb_spec u QUOTE); [repeat constructor; discriminate|].
    destruct (Z.eqb_spec u LF); repeat constructor; try discriminate.
    assumption.
  - induction body as [|u t IH]; intros pre post H.
    + destruct pre; discriminate.
    + rewrite escape_cons in H.
      destruct (Z.eqb_spec u QUOTE) as [Hq|Hq];
        [|destruct (Z.eqb_spec u LF) as [Hl|Hl]]; cbn [app] in H.
      * destruct pre as [|p1 [|p2 pre]]; cbn [app] in H.
        -- discriminate.
        -- injection H as <- _. now exists [].
        -- injection H as <- <- H. destruct (IH _ _ H) as [pre' ->].
           now exists (BACKSLASH :: QUOTE :: pre').
      * destruct pre as [|p1 [|p2 pre]]; cbn [app] in H.
        -- discriminate.
        -- discriminate.
        -- injection H as <- <- H. destruct (IH _ _ H) as [pre' ->].
           now exists (BACKSLASH :: 110 :: pre').
      * destruct pre as [|p1 pre]; cbn [app] in H.
        -- injection H as Hu _. contradiction.
        -- injection H as <- H. destruct (IH _ _ H) as [pre' ->].
           now exists (u :: pre').
Qed.

(** X14. The escaping loses the difference between a line feed and a
    backslash followed by [n]: two bodies that differ only there give the
    same command. *)
Theorem escape_collision (isWindows : bool) (a b : jsstring) :
  a ++ [LF] ++ b <> a ++ [BACKSLASH; 110] ++ b
  /\ write_command isWindows (a ++ [LF] ++ b)
     = write_command isWindows (a ++ [BACKSLASH; 110] ++ b).
Proof.
  split.
  - intros H. apply app_inv_head in H. discriminate.
  - unfold write_command. rewrite !escape_app. reflexivity.
Qed.


(** ** The command line *)

(** Induction on the arguments the way the loop consumes them: one or two
    at a time. *)
Lemma args_ind (P : list jsstring -> Prop) :
  P [] -> (forall a, P [a]) ->
  (forall a v rest, P rest -> P (v :: rest) -> P (a :: v :: rest)) ->
  forall args, P args.
Proof.
  intros Hnil Hone Htwo args.
  assert (H : P args /\ forall a, P (a :: args)).
  { induction args as [|v rest [IH1 IH2]].
    - split; [exact Hnil | exact Hone].
    - split; [apply IH2|]. intros a. apply Htwo; [exact IH1 | apply IH2]. }
  apply H.
Qed.

Lemma is_mode_spec (a : jsstring) :
  is_mode a = true <-> a = lit "server" \/ a = lit "client".
Proof.
  unfold is_mode. rewrite orb_true_iff, !str_eqb_eq. tauto.
Qed.

(** After the loop [mode] is still one of the two words. *)
Lemma parse_args_mode (args : list jsstring) :
  forall o, is_mode (mode o) = true -> is_mode (mode (parse_args args o)) = true.
Proof.
  induction args as [|a|a v rest IH1 IH2] using args_ind; intros o Ho.
  - exact Ho.
  - cbn [parse_args].
    destruct (str_eqb a (lit "-secure")); [exact Ho|].
    destruct (is_mode a) eqn:Ha; [exact Ha | exact Ho].
  - cbn [parse_args].
    destruct (str_eqb a (lit "-p")); [now apply IH1|].
    destruct (str_eqb a (lit "-h")); [now apply IH1|].
    destruct (str_eqb a (lit "-secure")); [now apply IH2|].
    destruct (str_eqb a (lit "-key")); [now apply IH1|].
    destruct (str_eqb a (lit "-cert")); [now apply IH1|].
    destruct (is_mode a) eqn:Ha; [now apply IH2 | now apply IH2].
Qed.

Lemma valid_port_range (p : option Z) : 1 <= valid_port p <= 65535.
Proof.
  unfold valid_port. destruct p as [n|]; [|lia].
  destruct (Z.ltb_spec n 1); cbn [orb]; [lia|].
  destruct (n >? 65535) eqn:E; [lia|].
  rewrite Z.gtb_ltb in E. apply Z.ltb_ge in E. lia.
Qed.

(** X15. Whatever the arguments, the program never reaches its
    [Invalid mode] branch, and the port it listens on or connects to is
    between 1 and 65535: 3000 when the value given to [-p] is not a number
    in that range. *)
Theorem startup_mode_and_port
        (readFileSync : jsstring -> option bytes) (args : list jsstring) :
  main readFileSync args <> InvalidMode
  /\ (forall p tls, main readFileSync args = Listen p tls ->
                    1 <= p <= 65535
                    /\ (p = 3000
                        \/ port (parse_args args defaults) = Some p))
  /\ (forall h p tls, main readFileSync args = Connect h p tls ->
                      1 <= p <= 65535
                      /\ (p = 3000
                          \/ port (parse_args args defaults) = Some p)).
Proof.
  pose proof (parse_args_mode args defaults eq_refl) as Hmode.
  apply is_mode_spec in Hmode.
  set (o := parse_args args defaults) in *.
  assert (Hport : forall p, p = valid_port (port o) ->
                    1 <= p <= 65535 /\ (p = 3000 \/ port o = Some p)).
  { intros p ->. split; [apply valid_port_range|].
    unfold valid_port. destruct (port o) as [n|]; [|now left].
    destruct ((n <? 1) || (n >? 65535)); [now left | now right]. }
  unfold main. fold o.
  destruct (secure o && str_eqb (mode o) (lit "server")
            && (missing (keyPath o) || missing (certPath o))).
  { repeat split; discriminate. }
  destruct (str_eqb (mode o) (lit "server")) eqn:Hs.
  - unfold startServer. destruct (secure o).
    + destruct (read_path readFileSync (keyPath o)) as [k|];
        [destruct (read_path readFileSync (certPath o)) as [c|]|].
      * split; [discriminate|]. split; [|discriminate].
        intros p tls [= <- _]. now apply Hport.
      * repeat split; discriminate.
      * repeat split; discriminate.
    + split; [discriminate|]. split; [|discriminate].
      intros p tls [= <- _]. now apply Hport.
  - destruct (str_eqb (mode o) (lit "client")) eqn:Hc.
    + split; [discriminate|]. split; [discriminate|].
      intros h p tls [= _ <- _]. now apply Hport.
    + apply str_eqb_neq in Hs, Hc. tauto.
Qed.

Lemma startup_mode_and_port_witness :
  main (fun _ => None) [lit "client"; lit "-p"; lit "70000"; lit "bogus"]
  = Connect (lit "localhost") 3000 false
  /\ 1 <= 3000 <= 65535.
Proof.
  split; [reflexivity|].
  apply (proj1 (proj2 (proj2 (startup_mode_and_port
           (fun _ => None) [lit "client"; lit "-p"; lit "70000"; lit "bogus"]))
         (lit "localhost") 3000 false eq_refl)).
Defined.




(** On a command line without [-secure], [-key] and [-cert] the program
    reads its arguments as the copy without TLS does. *)
Lemma parse_args_plain_agree (args : list jsstring) :
  Forall (fun a => tls_option a = false) args ->
  forall o, parse_args args o = parse_args_plain args o.
Proof.
  induction args as [|a|a v rest IH1 IH2] using args_ind; intros Hargs o.
  - reflexivity.
  - inversion Hargs as [|? ? Ha _]; subst. unfold tls_option in Ha.
    apply orb_false_iff in Ha as [Ha _]. apply orb_false_iff in Ha as [Ha _].
    cbn [parse_args parse_args_plain]. now rewrite Ha.
  - inversion Hargs as [|? ? Ha Hrest]; subst.
    inversion Hrest as [|? ? _ Hrest']; subst.
    unfold tls_option in Ha.
    apply orb_false_iff in Ha as [Ha Hcert].
    apply orb_false_iff in Ha as [Hsec Hkey].
    cbn [parse_args parse_args_plain]. rewrite Hsec, Hkey, Hcert.
    destruct (str_eqb a (lit "-p")); [now apply IH1|].
    destruct (str_eqb a (lit "-h")); [now apply IH1|].
    destruct (is_mode a); now apply IH2.
Qed.

Lemma parse_args_plain_no_tls (args : list jsstring) :
  forall o, secure (parse_args_plain args o) = secure o.
Proof.
  induction args as [|a|a v rest IH1 IH2] using args_ind; intros o.
  - reflexivity.
  - cbn [parse_args_plain]. now destruct (is_mode a).
  - change (parse_args_plain (a :: v :: rest) o)
      with (if str_eqb a (lit "-p") then
              parse_args_plain rest
                (mkOptions (parseInt_string v) (host o) (mode o) (secure o)
                           (keyPath o) (certPath o))
            else if str_eqb a (lit "-h") then
              parse_args_plain rest
                (mkOptions (port o) v (mode o) (secure o)
                           (keyPath o) (certPath o))
            else if is_mode a then
              parse_args_plain (v :: rest)
                (mkOptions (port o) (host o) a (secure o)
                           (keyPath o) (certPath o))
            else parse_args_plain (v :: rest) o).
    destruct (str_eqb a (lit "-p")); [now rewrite IH1|].
    destruct (str_eqb a (lit "-h")); [now rewrite IH1|].
    destruct (is_mode a); now rewrite IH2.
Qed.

(** X17. A command line without [-secure], [-key] and [-cert] starts the
    program exactly as it starts the copy without TLS: same mode, same
    host, same port, no TLS, and no file is read. *)
Theorem plain_command_line
        (readFileSync : jsstring -> option bytes) (args : list jsstring) :
  Forall (fun a => tls_option a = false) args ->
  main readFileSync args = main_plain args.
Proof.
  intros Hargs. unfold main, main_plain.
  rewrite (parse_args_plain_agree args Hargs).
  pose proof (parse_args_plain_no_tls args defaults) as Hsec.
  cbn [secure defaults] in Hsec. unfold startServer. rewrite Hsec.
  cbn [andb]. reflexivity.
Qed.

Lemma plain_command_line_witness :
  main (fun _ => None) [lit "client"; lit "-h"; lit "10.0.0.2"; lit "-p"; lit "8080"]
  = Connect (lit "10.0.0.2") 8080 false.
Proof.
  rewrite (plain_command_line
             (fun _ => None)
             [lit "client"; lit "-h"; lit "10.0.0.2"; lit "-p"; lit "8080"]).
  - reflexivity.
  - repeat constructor.
Defined.

(** ** Numbers on the command line *)

Lemma radix_digits_decimal (ds : jsstring) :
  Forall (fun u => is_digit u = true) ds ->
  radix_digits 10 ds = map (fun u => u - 48) ds.
Proof.
  induction 1 as [|d ds Hd _ IH]; [reflexivity|].
  cbn [radix_digits map]. unfold digit_value. rewrite <- IH.
  apply digit_range in Hd.
  destruct (Z.leb_spec 48 d); [|lia]. destruct (Z.leb_spec d 57); [|lia].
  cbn [andb]. destruct (Z.ltb_spec (d - 48) 10); [reflexivity | lia].
Qed.

Lemma fold_digit_values (ds : jsstring) (acc : Z) :
  fold_left (fun a d => 10 * a + d) (map (fun u => u - 48) ds) acc
  = fold_left (fun a d => 10 * a + (d - 48)) ds acc.
Proof.
  revert acc. induction ds as [|d ds IH]; intros acc; [reflexivity|].
  cbn [map fold_left]. apply IH.
Qed.

Lemma digit_cases (d : Z) :
  is_digit d = true ->
  d = 48 \/ d = 49 \/ d = 50 \/ d = 51 \/ d = 52 \/ d = 53 \/ d = 54
  \/ d = 55 \/ d = 56 \/ d = 57.
Proof. intros H. apply digit_range in H. lia. Qed.

Lemma split_sign_digit (d : Z) (ds : jsstring) :
  is_digit d = true -> split_sign (d :: ds) = (1, d :: ds).
Proof.
  intros H. apply digit_cases in H.
  repeat (destruct H as [->|H]; [reflexivity|]). now subst.
Qed.

Lemma split_radix_digits (ds : jsstring) :
  Forall (fun u => is_digit u = true) ds -> split_radix ds = (10, ds).
Proof.
  intros H. destruct H as [|d ds Hd Hds]; [reflexivity|].
  apply digit_cases in Hd.
  destruct Hd as [->|Hd].
  - destruct Hds as [|x t Hx _]; [reflexivity|].
    apply digit_range in Hx. unfold split_radix.
    destruct (Z.eqb_spec x 120); [lia|]. destruct (Z.eqb_spec x 88); [lia|].
    reflexivity.
  - repeat (destruct Hd as [->|Hd]; [reflexivity|]). now subst.
Qed.

Lemma is_space_digit (d : Z) : is_digit d = true -> is_space d = false.
Proof.
  intros H. apply digit_cases in H.
  repeat (destruct H as [->|H]; [reflexivity|]). now subst.
Qed.

(** On a run of decimal digits, [parseInt] as the argument loop calls it
    is [parseInt] as the decoder calls it on the capture of [(\d+)]. *)
Lemma parseInt_string_digits (ds : jsstring) :
  ds <> [] -> Forall (fun u => is_digit u = true) ds ->
  parseInt_string ds = Some (parseInt ds).
Proof.
  intros Hne Hds. unfold parseInt_string.
  destruct ds as [|d ds]; [contradiction|].
  inversion Hds as [|? ? Hd Hds']; subst.
  cbn [trimStart]. rewrite (is_space_digit d Hd).
  rewrite (split_sign_digit d ds Hd), (split_radix_digits (d :: ds) Hds).
  rewrite radix_digits_decimal by assumption.
  cbn [map]. cbv iota. f_equal. rewrite Z.mul_1_l.
  change (d - 48 :: map (fun u => u - 48) ds)
    with (map (fun u => u - 48) (d :: ds)).
  apply fold_digit_values.
Qed.

(** X18. [-p] followed by the decimal digits of a number: the program
    listens on that port when it is between 1 and 65535, and on 3000
    otherwise. *)
Theorem port_option (readFileSync : jsstring -> option bytes) (n : Z) :
  0 <= n ->
  main readFileSync [lit "-p"; number_to_string n]
  = Listen (if (1 <=? n) && (n <=? 65535) then n else 3000) None.
Proof.
  intros Hn. unfold main. cbn [parse_args].
  change (str_eqb (lit "-p") (lit "-p")) with true. cbv iota.
  rewrite parseInt_string_digits
    by (apply number_to_string_nonempty || apply number_to_string_digits).
  rewrite parseInt_number_to_string by assumption.
  cbn [secure mode defaults port andb keyPath certPath host].
  change (str_eqb (lit "server") (lit "server")) with true. cbv iota.
  unfold startServer. cbn [secure]. f_equal. unfold valid_port.
  destruct (Z.leb_spec 1 n); destruct (Z.ltb_spec n 1); try lia;
    cbn [andb orb]; [|reflexivity].
  destruct (Z.leb_spec n 65535); destruct (n >? 65535) eqn:E;
    rewrite Z.gtb_ltb in E; try reflexivity;
    [apply Z.ltb_lt in E | apply Z.ltb_ge in E]; lia.
Qed.

Lemma port_option_witness :
  main (fun _ => None) [lit "-p"; number_to_string 8080] = Listen 8080 None
  /\ main (fun _ => None) [lit "-p"; number_to_string 70000] = Listen 3000 None.
Proof.
  split.
  - apply (port_option (fun _ => None) 8080). lia.
  - apply (port_option (fun _ => None) 70000). lia.
Defined.

(** ** Two peers *)

Lemma on_data_frame (st : conn) (x : jsstring) :
  buffer st = [] -> well_formed x = true -> on_data st (encode x) = (st, [x]).
Proof.
  intros Hb Hwf.
  rewrite on_data_drain, Hb, toString_encode by assumption. cbn [app].
  rewrite drain_message by assumption. unfold after_data. cbn [fst snd].
  destruct st as [b lc lb sk].
  cbn [buffer lastClientContent lastClipboardContent skipNextCheck] in *.
  subst b. reflexivity.
Qed.

(** A frame is received and its body written to the clipboard: no
    callback sends anything while the clipboard reads give that body. *)
Lemma run_after_delivery (st : conn) (x : jsstring) (es : list event) :
  buffer st = [] -> well_formed x = true ->
  Forall (reads x) es -> Forall (keeps_received x) es ->
  snd (run st (Data (encode x) :: Settled x true :: es)) = [].
Proof.
  intros Hb Hwf Hr Hk. cbn [run step].
  rewrite on_data_frame by assumption. cbn [fst settle].
  destruct (no_echo_invariant (write_fulfilled st x) x es eq_refl Hr Hk)
    as [Hout _].
  destruct (run (write_fulfilled st x) es) as [st2 outs].
  cbn [snd] in *. exact Hout.
Qed.

(** X19. Two peers whose clipboards hold different texts [a] and [b] and
    whose first ticks both fire before either frame arrives: each sends
    its text, each writes the other's text to its clipboard, and from then
    on neither sends anything as long as its clipboard is left alone.  The
    two clipboards have been exchanged, not made equal. *)
Theorem crossed_updates (a b : jsstring) (esA esB : list event) :
  a <> [] -> b <> [] -> well_formed a = true -> well_formed b = true ->
  Forall (reads b) esA -> Forall (keeps_received b) esA ->
  Forall (reads a) esB -> Forall (keeps_received a) esB ->
  let A1 := fst (onClipboardSample initial a) in
  let B1 := fst (onClipboardSample initial b) in
  snd (onClipboardSample initial a) = Emit a
  /\ snd (onClipboardSample initial b) = Emit b
  /\ snd (on_data A1 (encode b)) = [b]
  /\ snd (on_data B1 (encode a)) = [a]
  /\ snd (run A1 (Data (encode b) :: Settled b true :: esA)) = []
  /\ snd (run B1 (Data (encode a) :: Settled a true :: esB)) = [].
Proof.
  intros Ha Hb Hwa Hwb HrA HkA HrB HkB. cbv zeta.
  rewrite !onClipboardSample_compare by reflexivity.
  rewrite !poll_compare_emit by assumption. cbn [fst snd].
  split; [reflexivity|]. split; [reflexivity|].
  rewrite !on_data_frame by (reflexivity || assumption). cbn [snd].
  split; [reflexivity|]. split; [reflexivity|].
  split; now apply run_after_delivery.
Qed.

Lemma crossed_updates_witness :
  snd (run (fst (onClipboardSample initial (lit "left")))
           [Data (encode (lit "right")); Settled (lit "right") true;
            Timer; Timer; ReadDone (Some (lit "right"))])
  = []
  /\ snd (run (fst (onClipboardSample initial (lit "right")))
              [Data (encode (lit "left")); Settled (lit "left") true;
               Timer; Timer; ReadDone (Some (lit "left"))])
     = [].
Proof.
  pose proof (crossed_updates
                (lit "left") (lit "right")
                [Timer; Timer; ReadDone (Some (lit "right"))]
                [Timer; Timer; ReadDone (Some (lit "left"))]) as H.
  specialize (H ltac:(discriminate) ltac:(discriminate) eq_refl eq_refl
                ltac:(repeat constructor) ltac:(repeat constructor)
                ltac:(repeat constructor) ltac:(repeat constructor)).
  cbv zeta in H. destruct H as (_ & _ & _ & _ & HA & HB).
  exact (conj HA HB).
Defined.

(** ** Witnesses *)

Lemma stream_reassembly_witness :
  feed initial [firstn 30 (encode (lit "one") ++ encode (lit "two"));
                []; skipn 30 (encode (lit "one") ++ encode (lit "two"))
                      ++ encode [0x61; CR; LF; CR; LF; 0x62]]
  = (initial, [lit "one"; lit "two"; [0x61; CR; LF; CR; LF; 0x62]]).
Proof.
  apply (stream_reassembly initial
           [lit "one"; lit "two"; [0x61; CR; LF; CR; LF; 0x62]]).
  - reflexivity.
  - repeat constructor; unfold CR, LF; cbn; lia.
  - vm_compute. reflexivity.
Defined.


Lemma emitted_frame_delivered_witness :
  on_data initial (encode [0x68; 0xE9])
  = (initial, [[0x68; 0xE9]]).
Proof.
  destruct (emitted_frame_delivered
              initial (mkConn [] [] [0x68; 0xE9] false) initial
              [0x20; 0x68; 0xC3; 0xA9; 0x0A] (encode [0x68; 0xE9])
              eq_refl eq_refl) as [H _].
  exact H.
Defined.

Lemma escape_quotes_and_line_feeds_witness :
  exists pre', [0x61; BACKSLASH] = pre' ++ [BACKSLASH].
Proof.
  exact (proj2 (escape_quotes_and_line_feeds [0x61; QUOTE; LF])
               [0x61; BACKSLASH] [BACKSLASH; 110] eq_refl).
Defined.
